(** * ipcamcorder: a shallow embedding of [ipcamcorder.py]

    The module records JPG snapshots of IP cameras into rotating video
    files.  This development embeds [IPCamera] (download, stale-frame
    fallback, paced generator) and [Recorder] (file name generator with
    the cache limit, the recording loop) together with [main], and
    proves properties of them.

    Conventions of the embedding.
    - Everything a method reads from outside the interpreter (the
      [quit] event that another thread sets, the network, the clocks,
      the video encoder, the file system's refusal to remove an entry)
      is an oracle of [Env].  The [World] counts how many times each
      oracle has been consulted, holds the listing of [outdir], the
      mutable attribute [previous] of the camera and the chronological
      list of observable events (printed lines, sleeps, encoder calls,
      removals).
    - Methods are computations in [M], a state monad in which a raised
      exception keeps the state reached so far.  Loops that Python does
      not bound take a fuel argument; [Starved] marks exhausted fuel and
      is never the outcome of a Python run.
    - Python floats ([fps], [time.time()]) are exact rationals [Q]. *)

From Stdlib Require Import List String Ascii Bool Arith NArith ZArith QArith Lia.
From Stdlib Require Import Sorting.Sorted Sorting.Permutation Sorting.Mergesort.
From Stdlib Require Import Orders DecimalString Lqa Qround.
Import ListNotations.

Local Open Scope string_scope.
Local Open Scope list_scope.

(** ** Values *)

(** A decoded raw image: [shape] is (height, width) of the numpy array,
    [pixels] stands for the decoded payload and [overlay] is the text
    burnt in by [cv2.putText]. *)
Record Image := mkImage {
  height : Z;
  width : Z;
  pixels : string;
  overlay : string
}.

(** [datetime.now()] *)
Record DateTime := mkDateTime {
  year : N; month : N; day : N;
  hour : N; minute : N; second : N
}.

(** A path built by [os.path.join(outdir, filename)], kept as the pair it
    was joined from.  Channel names are taken to contain neither a path
    separator nor a character that is special in a regular expression,
    so that [filename] always denotes an entry of [outdir]. *)
Record Path := mkPath { dirname : string; basename : string }.

Definition os_path_join (d f : string) : Path := mkPath d f.

(** Python exceptions that the module can meet. *)
Inductive exn :=
| ExternalError (what : string)      (* raised by requests / cv2 / os *)
| UnboundLocalError (var : string)
| ZeroDivisionError
| ValueError (what : string)
| IOError (what : string)
| SystemExit (code : Z)
| Exception_ (msg : string) (cause : exn).

(** Lines written by [print]. *)
Inductive Line :=
| LErrorDownloading (uri : string) (exc : exn)
| LFpsDrop (measured : Q) (uri : string)
| LCompleted (uri : string)
| LLowFpsWarning
| LNames (names : list string)
| LRemoved (rm_path : Path)
| LFailedRemove (rm_path : Path) (exc : exn)
| LRecordingTo (filepath : Path)
| LFrameTime (name : string) (dt : Q)
| LRecordingFor (seconds : Z)
| LNoChannel.

(** Observable events, in the order in which they happen. *)
Inductive Event :=
| EStderr (l : Line)
| EStdout (l : Line)
| EGet (uri : string) (timeout : Q)
| ESleep (secs : Q)
| ERemoveCall (rm_path : Path)
| EOpen (filepath : Path) (fps : Q) (size : Z * Z)
| EWrite (filepath : Path) (frame : Image)
| ERelease (filepath : Path).

(** ** The environment and the world *)

Record Env := mkEnv {
  (** answer of the n-th evaluation of [quit.is_set()] *)
  quit_at : nat -> bool;
  (** outcome of the n-th [requests.get]: the body or an exception *)
  get_at : nat -> string + exn;
  (** [cv2.imdecode]: [None] when the buffer is not an image *)
  imdecode : string -> option (Z * Z);
  (** n-th reading of [time.time()] *)
  time_at : nat -> Q;
  (** n-th reading of [datetime.now()] *)
  now_at : nat -> DateTime;
  (** entries of [outdir] that [os.remove] refuses to remove *)
  remove_refused : string -> bool;
  (** whether the n-th [cv2.VideoWriter(...)] creates its file *)
  open_creates : nat -> bool;
  (** exception raised by the n-th [video.write], if any *)
  write_at : nat -> option exn
}.

Record World := mkWorld {
  n_is_set : nat;
  n_get : nat;
  n_time : nat;
  n_now : nat;
  n_open : nat;
  n_write : nat;
  listing : list string;        (* os.listdir(outdir) *)
  previous : option Image;      (* camera.previous *)
  events : list Event
}.

Definition emit (e : Event) (w : World) : World :=
  mkWorld (n_is_set w) (n_get w) (n_time w) (n_now w) (n_open w) (n_write w)
          (listing w) (previous w) (events w ++ [e]).

Definition set_previous (p : option Image) (w : World) : World :=
  mkWorld (n_is_set w) (n_get w) (n_time w) (n_now w) (n_open w) (n_write w)
          (listing w) p (events w).

Definition set_listing (l : list string) (w : World) : World :=
  mkWorld (n_is_set w) (n_get w) (n_time w) (n_now w) (n_open w) (n_write w)
          l (previous w) (events w).

(** ** The monad *)

Inductive result (A : Type) :=
| Ret (a : A)
| Raise (e : exn)
| Starved.
Arguments Ret {A} a.
Arguments Raise {A} e.
Arguments Starved {A}.

Definition M (A : Type) := World -> result A * World.

Definition ret {A} (a : A) : M A := fun w => (Ret a, w).
Definition raise {A} (e : exn) : M A := fun w => (Raise e, w).
Definition bind {A B} (c : M A) (k : A -> M B) : M B :=
  fun w => match c w with
           | (Ret a, w') => k a w'
           | (Raise e, w') => (Raise e, w')
           | (Starved, w') => (Starved, w')
           end.
(** [try: c except Exception as exc: h exc] *)
Definition try_except {A} (c : M A) (h : exn -> M A) : M A :=
  fun w => match c w with
           | (Raise e, w') => h e w'
           | r => r
           end.
Definition tell (e : Event) : M unit := fun w => (Ret tt, emit e w).
Definition print (l : Line) : M unit := tell (EStdout l).
Definition print_stderr (l : Line) : M unit := tell (EStderr l).

Declare Scope py_scope.
Delimit Scope py_scope with py.
Notation "x <- c ;; k" := (bind c (fun x => k))
  (at level 61, c at next level, right associativity) : py_scope.
Notation "c ;;; k" := (bind c (fun _ => k))
  (at level 61, right associativity) : py_scope.
Local Open Scope py_scope.

(** ** Formatting dates *)

Definition decimal (n : N) : string := NilZero.string_of_uint (N.to_uint n).

Fixpoint zeros (k : nat) : string :=
  match k with O => "" | S k' => String "0" (zeros k') end.

(** [%0<w>d] *)
Definition pad (w : nat) (n : N) : string :=
  let d := decimal n in zeros (w - String.length d) ++ d.

(** [strftime(d, '%Y%m%d_%H%M%S')] *)
Definition strftime_file (d : DateTime) : string :=
  pad 4 (year d) ++ pad 2 (month d) ++ pad 2 (day d) ++ "_" ++
  pad 2 (hour d) ++ pad 2 (minute d) ++ pad 2 (second d).

(** [strftime(d, '%Y%m%d %H:%M:%S')] *)
Definition strftime_overlay (d : DateTime) : string :=
  pad 4 (year d) ++ pad 2 (month d) ++ pad 2 (day d) ++ " " ++
  pad 2 (hour d) ++ ":" ++ pad 2 (minute d) ++ ":" ++ pad 2 (second d).

(** ** File names *)

Definition is_digit (c : ascii) : bool :=
  (48 <=? nat_of_ascii c)%nat && (nat_of_ascii c <=? 57)%nat.

(** Consume the literal [p] at the head of [s]. *)
Fixpoint eat_literal (p s : string) : option string :=
  match p with
  | EmptyString => Some s
  | String c p' =>
      match s with
      | String d s' => if Ascii.eqb c d then eat_literal p' s' else None
      | EmptyString => None
      end
  end.

(** [[0-9]{k}] *)
Fixpoint eat_digits (k : nat) (s : string) : option string :=
  match k with
  | O => Some s
  | S k' =>
      match s with
      | String d s' => if is_digit d then eat_digits k' s' else None
      | EmptyString => None
      end
  end.

(** [.]: any character except a newline *)
Definition eat_dot (s : string) : option string :=
  match s with
  | String d s' => if Ascii.eqb d "010"%char then None else Some s'
  | EmptyString => None
  end.

Definition and_then {A B} (o : option A) (f : A -> option B) : option B :=
  match o with Some a => f a | None => None end.

(** [re.compile("%s_([0-9]{8}_[0-9]{6}).avi" % name).match(n)]: the
    match is anchored at the start of [n] only, and the dot before
    [avi] is a wildcard. *)
Definition pattern_match (name n : string) : bool :=
  match
    and_then (eat_literal name n) (fun s1 =>
    and_then (eat_literal "_" s1) (fun s2 =>
    and_then (eat_digits 8 s2) (fun s3 =>
    and_then (eat_literal "_" s3) (fun s4 =>
    and_then (eat_digits 6 s4) (fun s5 =>
    and_then (eat_dot s5) (fun s6 =>
    eat_literal "avi" s6))))))
  with
  | Some _ => true
  | None => false
  end.

(** ** Sorting names

    [names.sort()] orders byte strings lexicographically.  The order is
    total and antisymmetric, so every sorting algorithm returns the same
    list; the library's merge sort stands for Python's. *)
Module StringOrder <: TotalLeBool.
Definition t := string.
Definition leb (a b : string) : bool := String.leb a b.
Definition leb_total : forall a b, leb a b = true \/ leb b a = true :=
  String.leb_total.
End StringOrder.

Module StringSort := Sort StringOrder.

Definition sort (names : list string) : list string := StringSort.sort names.

(** ** Strings of the command line *)

(** [s.split(sep)] for a one-character separator *)
Fixpoint split (sep : ascii) (s : string) : list string :=
  match s with
  | EmptyString => [EmptyString]
  | String c s' =>
      if Ascii.eqb c sep then EmptyString :: split sep s'
      else match split sep s' with
           | p :: ps => String c p :: ps
           | [] => [String c EmptyString]
           end
  end.

Definition is_space (c : ascii) : bool :=
  let n := nat_of_ascii c in
  (n =? 32)%nat || ((9 <=? n)%nat && (n <=? 13)%nat).

Fixpoint lstrip (s : string) : string :=
  match s with
  | String c s' => if is_space c then lstrip s' else s
  | EmptyString => EmptyString
  end.

Fixpoint rstrip (s : string) : string :=
  match s with
  | String c s' =>
      match rstrip s' with
      | EmptyString => if is_space c then EmptyString else String c EmptyString
      | r => String c r
      end
  | EmptyString => EmptyString
  end.

Definition strip (s : string) : string := rstrip (lstrip s).

(** [int(q)]: truncation towards zero *)
Definition int_of_Q (q : Q) : Z := Z.quot (Qnum q) (Zpos (Qden q)).

Definition Qlt_bool (a b : Q) : bool := negb (Qle_bool b a).

Section Program.

Variable env : Env.

(** ** Primitive operations *)

Definition quit_is_set : M bool := fun w =>
  (Ret (quit_at env (n_is_set w)),
   mkWorld (S (n_is_set w)) (n_get w) (n_time w) (n_now w) (n_open w)
           (n_write w) (listing w) (previous w) (events w)).

Definition time_time : M Q := fun w =>
  (Ret (time_at env (n_time w)),
   mkWorld (n_is_set w) (n_get w) (S (n_time w)) (n_now w) (n_open w)
           (n_write w) (listing w) (previous w) (events w)).

Definition datetime_now : M DateTime := fun w =>
  (Ret (now_at env (n_now w)),
   mkWorld (n_is_set w) (n_get w) (n_time w) (S (n_now w)) (n_open w)
           (n_write w) (listing w) (previous w) (events w)).

(** [requests.get(uri, timeout=timeout).content] *)
Definition requests_get (uri : string) (timeout : Q) : M string := fun w =>
  let w' := emit (EGet uri timeout)
              (mkWorld (n_is_set w) (S (n_get w)) (n_time w) (n_now w)
                       (n_open w) (n_write w) (listing w) (previous w)
                       (events w)) in
  match get_at env (n_get w) with
  | inl body => (Ret body, w')
  | inr e => (Raise e, w')
  end.

(** [time.sleep]: a negative argument is refused. *)
Definition time_sleep (secs : Q) : M unit :=
  if Qle_bool 0 secs then tell (ESleep secs)
  else raise (IOError "[Errno 22] Invalid argument").

(** ** class IPCamera *)

Record IPCamera := mkIPCamera {
  uri : string;
  verbose : bool;
  name : string;
  fps : Q;
  timeout : Q;
  duration : Z
}.

(** [IPCamera.__init__]; the attribute [previous] starts as [None] in the
    world.  [1.0 / self.fps] raises for a zero rate. *)
Definition IPCamera_init (uri : string) (fps : Q) (duration : Z)
    (name : string) (verbose : bool) : exn + IPCamera :=
  if Qeq_bool fps 0 then inl ZeroDivisionError
  else inr (mkIPCamera uri verbose name fps (1 / fps) duration).

(** [IPCamera.process_jpg]: decode, then overlay "<name> <date>".
    [cv2.putText] raises on the [None] that [cv2.imdecode] gives for a
    payload that is not an image. *)
Definition process_jpg (self : IPCamera) (jpg_data : string) : M Image :=
  match imdecode env jpg_data with
  | None =>
      d <- datetime_now ;;
      raise (ExternalError "putText: img is not a numpy array")
  | Some (h, wd) =>
      d <- datetime_now ;;
      ret (mkImage h wd jpg_data (name self ++ " " ++ strftime_overlay d))
  end.

(** [IPCamera.next_frame].  The local [image] is bound only on the two
    paths that end in [break]; leaving the [while] through its condition
    reaches [return image] with [image] unbound. *)
Fixpoint next_frame (self : IPCamera) (fuel : nat) : M Image :=
  match fuel with
  | O => fun w => (Starved, w)
  | S fuel' =>
      q <- quit_is_set ;;
      if q : bool then raise (UnboundLocalError "image")
      else
        try_except
          (response <- requests_get (uri self) (timeout self) ;;
           image <- process_jpg self response ;;
           (fun w => (Ret image, set_previous (Some image) w)))
          (fun exc w =>
             match previous w with
             | None =>
                 (print_stderr (LErrorDownloading (uri self) exc) ;;;
                  q' <- quit_is_set ;;
                  if q' : bool then raise exc
                  else next_frame self fuel') w
             | Some prev =>
                 (print_stderr (LErrorDownloading (uri self) exc) ;;;
                  ret prev) w
             end)
  end.

(** [IPCamera.__iter__] is a generator.  Its frame is suspended either
    before its first statement or at [yield image]; the locals alive
    across the yield are kept in [IterLocals]. *)
Record IterLocals := mkIterLocals {
  start_time : Q;
  end_time : Q;
  yield_correction : Q;
  start_yield_time : Q
}.

Inductive Gen :=
| GenNew
| GenAtYield (l : IterLocals)
| GenDone.

(** One pass from the [while] test to the [yield]. *)
Definition iter_loop (self : IPCamera) (fuel : nat)
    (start_time end_time yield_correction : Q) : M (option Image * Gen) :=
  q <- quit_is_set ;;
  if q : bool then ret (None, GenDone)
  else
    image <- next_frame self fuel ;;
    now <- time_time ;;
    let elapsed_time := now - start_time + yield_correction in
    if Qeq_bool elapsed_time 0 then raise ZeroDivisionError
    else
      let fps_ := 1 / elapsed_time in
      (if Qlt_bool fps_ (fps self) then
         if verbose self then print_stderr (LFpsDrop fps_ (uri self))
         else ret tt
       else time_sleep (1 / fps self - elapsed_time)) ;;;
      start_yield_time <- time_time ;;
      ret (Some image,
           GenAtYield (mkIterLocals start_time end_time yield_correction
                                    start_yield_time)).

(** [next(gen)]: [Some image] is a yield, [None] is [StopIteration]. *)
Definition iter_next (self : IPCamera) (fuel : nat) (g : Gen)
    : M (option Image * Gen) :=
  match g with
  | GenNew =>
      start_time <- time_time ;;
      iter_loop self fuel start_time (start_time + inject_Z (duration self)) 0
  | GenAtYield l =>
      start_time <- time_time ;;
      let yield_correction := start_time - start_yield_time l in
      if (0 <? duration self)%Z then
        if Qlt_bool (end_time l) start_time then
          print_stderr (LCompleted (uri self)) ;;;
          ret (None, GenDone)
        else iter_loop self fuel start_time (end_time l) yield_correction
      else iter_loop self fuel start_time (end_time l) yield_correction
  | GenDone => ret (None, GenDone)
  end.

(** ** class Recorder *)

Record Recorder := mkRecorder {
  outdir : string;
  rec_fps : Q;
  rec_name : string;
  cache : Z;
  rec_verbose : bool;
  camera : IPCamera
}.

(** [Recorder.__init__].  [os.makedirs] leaves an existing directory as
    it is; the listing of the world is that of [outdir]. *)
Definition Recorder_init (uri name outdir : string) (fps : Q)
    (duration cache : Z) (verbose : bool) : M Recorder :=
  (if Qlt_bool fps 3 then print LLowFpsWarning else ret tt) ;;;
  match IPCamera_init uri fps duration name verbose with
  | inl e => raise e
  | inr cam => ret (mkRecorder outdir fps name cache verbose cam)
  end.

Definition os_listdir : M (list string) := fun w => (Ret (listing w), w).

Definition remove_entry (n : string) (l : list string) : list string :=
  filter (fun x => negb (String.eqb x n)) l.

(** [os.remove(os.path.join(outdir, rm_name))] *)
Definition os_remove (rm_path : Path) : M unit :=
  tell (ERemoveCall rm_path) ;;;
  fun w =>
    if remove_refused env (basename rm_path)
    then (Raise (ExternalError "OSError"), w)
    else (Ret tt, set_listing (remove_entry (basename rm_path) (listing w)) w).

(** The body of [for rm_name in names[0:rm_count]]. *)
Fixpoint remove_names (self : Recorder) (names : list string) : M unit :=
  match names with
  | [] => ret tt
  | rm_name :: rest =>
      let rm_path := os_path_join (outdir self) rm_name in
      try_except
        (os_remove rm_path ;;; print (LRemoved rm_path))
        (fun exc => print (LFailedRemove rm_path exc)) ;;;
      remove_names self rest
  end.

(** The cache limit control at the head of each pass of
    [filepath_generator]. *)
Definition cleanup_cache (self : Recorder) : M unit :=
  entries <- os_listdir ;;
  let names := filter (pattern_match (rec_name self)) entries in
  print (LNames names) ;;;
  let rm_count := (Z.of_nat (List.length names) - cache self)%Z in
  if (0 <? rm_count)%Z
  then remove_names self (firstn (Z.to_nat rm_count) (sort names))
  else ret tt.

Definition new_filename (self : Recorder) (date : DateTime) : string :=
  rec_name self ++ "_" ++ strftime_file date ++ ".avi".

(** [next(filepath_generator())]: the generator is suspended before its
    first statement or at the [yield] that ends the loop body, so every
    resumption starts at the [while] test. *)
Definition filepath_generator (self : Recorder) : M (option Path) :=
  q <- quit_is_set ;;
  if q : bool then ret None
  else
    cleanup_cache self ;;;
    date <- datetime_now ;;
    ret (Some (os_path_join (outdir self) (new_filename self date))).

(** [cv2.VideoWriter(filepath, codec, fps, size)] never raises; when the
    container can be opened its file appears in the directory. *)
Definition VideoWriter (filepath : Path) (fps : Q) (size : Z * Z) : M Path :=
  tell (EOpen filepath fps size) ;;;
  fun w =>
    let l := if open_creates env (n_open w)
             then (if existsb (String.eqb (basename filepath)) (listing w)
                   then listing w
                   else listing w ++ [basename filepath])
             else listing w in
    (Ret filepath,
     mkWorld (n_is_set w) (n_get w) (n_time w) (n_now w) (S (n_open w))
             (n_write w) l (previous w) (events w)).

(** [video.write(frame)] *)
Definition video_write (video : Path) (frame : Image) : M unit :=
  tell (EWrite video frame) ;;;
  fun w =>
    let w' := mkWorld (n_is_set w) (n_get w) (n_time w) (n_now w) (n_open w)
                      (S (n_write w)) (listing w) (previous w) (events w) in
    match write_at env (n_write w) with
    | Some e => (Raise e, w')
    | None => (Ret tt, w')
    end.

(** [for frame in self.camera: ...] with the generator in state [g]. *)
Fixpoint record_frames (self : Recorder) (video : Path) (fuel : nat)
    (g : Gen) (stime : Q) : M unit :=
  match fuel with
  | O => fun w => (Starved, w)
  | S fuel' =>
      r <- iter_next (camera self) fuel' g ;;
      match r with
      | (None, _) => ret tt
      | (Some frame, g') =>
          video_write video frame ;;;
          stime' <- (if rec_verbose self then
                       etime <- time_time ;;
                       print (LFrameTime (rec_name self) (etime - stime)) ;;;
                       time_time
                     else ret stime) ;;
          record_frames self video fuel' g' stime'
      end
  end.

(** [for filepath in self.filepath_generator(): ...] *)
Fixpoint record_files (self : Recorder) (size : Z * Z) (fuel : nat) : M unit :=
  match fuel with
  | O => fun w => (Starved, w)
  | S fuel' =>
      p <- filepath_generator self ;;
      match p with
      | None => ret tt
      | Some filepath =>
          print (LRecordingTo filepath) ;;;
          video <- VideoWriter filepath (rec_fps self) size ;;
          stime <- time_time ;;
          record_frames self video fuel' GenNew stime ;;;
          record_files self size fuel'
      end
  end.

(** [Recorder.run] *)
Definition run (self : Recorder) (fuel : nat) : M unit :=
  image <- next_frame (camera self) fuel ;;
  let size := (width image, height image) in
  record_files self size fuel.

(** ** main *)

(** [name, uri = channel.split('=')] and the two [strip]s *)
Definition parse_channel (channel : string) : exn + (string * string) :=
  match split "="%char channel with
  | [name; uri] => inr (strip name, strip uri)
  | [_] => inl (ValueError "need more than 1 value to unpack")
  | _ => inl (ValueError "too many values to unpack")
  end.

Definition invalid_channel (channel : string) (exc : exn) : exn :=
  Exception_ ("Invalid channel expect name=uri - " ++ channel) exc.

(** The loop of [main] that builds the recorders. *)
Fixpoint build_recorders (outdir : string) (duration cache : Z) (fps : Q)
    (verbose : bool) (channels : list string) : M (list Recorder) :=
  match channels with
  | [] => ret []
  | channel :: rest =>
      recorder <-
        try_except
          (match parse_channel channel with
           | inl e => raise e
           | inr (name, uri) =>
               Recorder_init uri name outdir fps duration cache verbose
           end)
          (fun exc => raise (invalid_channel channel exc)) ;;
      recorders <- build_recorders outdir duration cache fps verbose rest ;;
      ret (recorder :: recorders)
  end.

(** [main] up to the point where the workers are started: the value
    returned is the list of recorders on which [start()] is called. *)
Definition main (outdir : string) (duration : Q) (cache : Z) (fps : Q)
    (verbose : bool) (channels : list string) : M (list Recorder) :=
  let duration := int_of_Q (3600 * duration) in
  (if verbose then print (LRecordingFor duration) else ret tt) ;;;
  recorders <- build_recorders outdir duration cache fps verbose channels ;;
  match recorders with
  | [] => print LNoChannel ;;; raise (SystemExit (-1))
  | _ => ret recorders
  end.

End Program.

(** * Sample environments

    Concrete oracles on which the statements below are exercised. *)

Definition jpg_body : string := "JFIF".

Definition sample_decode (body : string) : option (Z * Z) :=
  if String.eqb body jpg_body then Some (480, 640)%Z else None.

Definition sample_now (n : nat) : DateTime :=
  mkDateTime 2014 3 9 7 5 (N.of_nat (n mod 60)).

(** A healthy camera and a writable directory; [quit] is set from the
    [stop]-th test on, downloads fail for the indexes in [down]. *)
Definition sample_env (stop : nat) (down : nat -> bool) : Env :=
  mkEnv (fun n => stop <=? n)%nat
        (fun n => if down n then inr (ExternalError "ConnectionError")
                  else inl jpg_body)
        sample_decode
        (fun n => inject_Z (Z.of_nat n))
        sample_now
        (fun _ => false)
        (fun _ => true)
        (fun _ => None).

Definition sample_camera : IPCamera :=
  mkIPCamera "http://cam/img.jpg" false "front" 1 1 2.

Definition sample_image : Image :=
  mkImage 480 640 jpg_body "front 20140309 07:05:00".

Definition empty_world : World := mkWorld 0 0 0 0 0 0 [] None [].

Definition sample_recorder (c : Z) : Recorder :=
  mkRecorder "." 1 "front" c false sample_camera.

(** The segment of channel [front] started at 07:05:[s]. *)
Definition segment (s : N) : string :=
  new_filename (sample_recorder 3) (mkDateTime 2014 3 9 7 5 s).



(** * Predicates used in the statements *)

(** The [j]-th download fails with [exc]: the request raises, or its
    body is not an image and the overlay raises. *)
Definition download_fails (env : Env) (j : nat) (exc : exn) : Prop :=
  get_at env j = inr exc \/
  exists body,
    get_at env j = inl body /\ imdecode env body = None /\
    exc = ExternalError "putText: img is not a numpy array".

(** [img] is what [process_jpg] makes of the body of the [k]-th request. *)
Definition decoded_from (env : Env) (k : nat) (img : Image) : Prop :=
  exists body,
    get_at env k = inl body /\
    imdecode env body = Some (height img, width img) /\
    pixels img = body.

(** The world after a pass of the loop of [next_frame] whose download
    failed with [exc] and in which [quit] was tested a second time. *)
Definition failed_pass (env : Env) (self : IPCamera) (w : World) (exc : exn)
    : World :=
  mkWorld (S (S (n_is_set w))) (S (n_get w)) (n_time w)
          (match get_at env (n_get w) with
           | inl _ => S (n_now w)
           | inr _ => n_now w
           end)
          (n_open w) (n_write w) (listing w) (previous w)
          (events w ++ [EGet (uri self) (timeout self);
                        EStderr (LErrorDownloading (uri self) exc)]).

(** The world after a test of [quit], and after a reading of
    [datetime.now()]. *)
Definition tested (w : World) : World :=
  mkWorld (S (n_is_set w)) (n_get w) (n_time w) (n_now w) (n_open w)
          (n_write w) (listing w) (previous w) (events w).

Definition dated (w : World) : World :=
  mkWorld (n_is_set w) (n_get w) (n_time w) (S (n_now w)) (n_open w)
          (n_write w) (listing w) (previous w) (events w).

Fixpoint all_digits (s : string) : bool :=
  match s with
  | EmptyString => true
  | String c s' => is_digit c && all_digits s'
  end.

Definition well_padded (w : nat) (n : N) : bool :=
  all_digits (pad w n) && (String.length (pad w n) =? w)%nat.

(** The names that the cache control considers in world [w]. *)
Definition matching (self : Recorder) (w : World) : list string :=
  filter (pattern_match (rec_name self)) (listing w).

Definition count_matching (self : Recorder) (w : World) : Z :=
  Z.of_nat (List.length (matching self w)).

(** [names[0:rm_count]] after the sort, and the rest. *)
Definition surplus (self : Recorder) (w : World) : list string :=
  firstn (Z.to_nat (count_matching self w - cache self))
         (sort (matching self w)).


Definition removable (env : Env) (n : string) : bool :=
  negb (remove_refused env n).

Definition remove_all (gone l : list string) : list string :=
  fold_left (fun l n => remove_entry n l) gone l.

(** What one pass of the removal loop shows for [rm_name]. *)
Definition removal_events (env : Env) (self : Recorder) (rm_name : string)
    : list Event :=
  let rm_path := os_path_join (outdir self) rm_name in
  if remove_refused env rm_name
  then [ERemoveCall rm_path;
        EStdout (LFailedRemove rm_path (ExternalError "OSError"))]
  else [ERemoveCall rm_path; EStdout (LRemoved rm_path)].

(** The world after the cache control has run in [w]. *)
Definition cleaned (env : Env) (self : Recorder) (w : World) : World :=
  mkWorld (n_is_set w) (n_get w) (n_time w) (n_now w) (n_open w) (n_write w)
          (remove_all (filter (removable env) (surplus self w)) (listing w))
          (previous w)
          (events w ++ EStdout (LNames (matching self w)) ::
             flat_map (removal_events env self) (surplus self w)).

(** The range of [datetime.now()] that [strftime] accepts. *)
Definition valid_date (d : DateTime) : Prop :=
  (1900 <= year d <= 9999 /\ 1 <= month d <= 12 /\ 1 <= day d <= 31 /\
   hour d <= 23 /\ minute d <= 59 /\ second d <= 59)%N.




(** ** Encoder handles in a trace *)

Definition is_release (e : Event) : bool :=
  match e with ERelease _ => true | _ => false end.

Definition is_write (e : Event) : bool :=
  match e with EWrite _ _ => true | _ => false end.

Definition is_open (e : Event) : bool :=
  match e with EOpen _ _ _ => true | _ => false end.

(** Every [EOpen] of the trace finds the handle opened before it
    released ([active] is the handle open at the start). *)
Fixpoint sealed_before_open (active : option Path) (es : list Event) : bool :=
  match es with
  | [] => true
  | EOpen p _ _ :: es' =>
      match active with
      | Some _ => false
      | None => sealed_before_open (Some p) es'
      end
  | ERelease _ :: es' => sealed_before_open None es'
  | _ :: es' => sealed_before_open active es'
  end.

(** The handle that is open when the trace ends. *)
Fixpoint open_at_exit (active : option Path) (es : list Event) : option Path :=
  match es with
  | [] => active
  | EOpen p _ _ :: es' => open_at_exit (Some p) es'
  | ERelease _ :: es' => open_at_exit None es'
  | _ :: es' => open_at_exit active es'
  end.

(** [w'] is reached from [w] by events that satisfy [ok]. *)
Definition extends (ok : Event -> bool) (w w' : World) : Prop :=
  exists es, events w' = events w ++ es /\ forallb ok es = true.

(** [w'] is reached from [w] without any call of [video.write]. *)
Definition quiet (w w' : World) : Prop :=
  n_write w' = n_write w /\
  extends (fun e => negb (is_release e) && negb (is_write e)) w w'.

Definition unreleased (w w' : World) : Prop :=
  extends (fun e => negb (is_release e)) w w'.

(** A computation that relates every world to the world it leaves. *)
Definition steps (R : World -> World -> Prop) {A : Type} (c : M A) : Prop :=
  forall w, R w (snd (c w)).

(** Between [w] and [w'] no write has failed, unless it is the last one
    and its exception is the outcome [r]. *)
Definition write_failure_is_final (env : Env) {A : Type} (r : result A)
    (w w' : World) : Prop :=
  (n_write w <= n_write w')%nat /\
  forall i e,
    (n_write w <= i < n_write w')%nat -> write_at env i = Some e ->
    r = Raise e /\ n_write w' = S i /\
    exists es video frame, events w' = es ++ [EWrite video frame].

Definition stops_at_failed_write (env : Env) {A : Type} (c : M A) : Prop :=
  forall w, write_failure_is_final env (fst (c w)) w (snd (c w)).

(** A camera that works, an encoder whose first write fails. *)
Definition failing_writer_env : Env :=
  mkEnv (fun n => 16 <=? n)%nat
        (fun _ => inl jpg_body)
        sample_decode
        (fun n => inject_Z (Z.of_nat n))
        sample_now
        (fun _ => false)
        (fun _ => true)
        (fun n => match n with
                  | O => Some (ExternalError "cv2.error")
                  | _ => None
                  end).

(** * Predicates of the further properties *)

(** The world after a pass of the loop of [next_frame] whose download
    failed with [exc] while a frame was cached. *)
Definition fell_back (env : Env) (self : IPCamera) (w : World) (exc : exn)
    : World :=
  mkWorld (S (n_is_set w)) (S (n_get w)) (n_time w)
          (match get_at env (n_get w) with
           | inl _ => S (n_now w)
           | inr _ => n_now w
           end)
          (n_open w) (n_write w) (listing w) (previous w)
          (events w ++ [EGet (uri self) (timeout self);
                        EStderr (LErrorDownloading (uri self) exc)]).






(** Cameras for the further properties: one that records without end,
    one built with a negative rate. *)
Definition unbounded_camera : IPCamera :=
  mkIPCamera "http://cam/img.jpg" false "front" 1 1 0.


(** Calendar order of two dates, field by field. *)
Definition then_compare (c : comparison) (rest : comparison) : comparison :=
  match c with Eq => rest | _ => c end.

Definition date_compare (d1 d2 : DateTime) : comparison :=
  then_compare (N.compare (year d1) (year d2))
  (then_compare (N.compare (month d1) (month d2))
  (then_compare (N.compare (day d1) (day d2))
  (then_compare (N.compare (hour d1) (hour d2))
  (then_compare (N.compare (minute d1) (minute d2))
                (N.compare (second d1) (second d2)))))).


(** Consecutive numbers below [bound] are padded to increasing strings. *)
Definition pads_increase (w : nat) (bound : N) : bool :=
  forallb (fun k => match String.compare (pad w (N.of_nat k))
                                         (pad w (N.of_nat (S k))) with
                    | Lt => true
                    | _ => false
                    end)
          (seq 0 (N.to_nat bound - 1)).

(** Two dates of the sample calendar, one second apart. *)
Definition sample_date (s : N) : DateTime := mkDateTime 2014 3 9 7 5 s.

(** ** Predicates on the command line *)

Fixpoint count_char (c : ascii) (s : string) : nat :=
  match s with
  | EmptyString => 0
  | String d s' => (if Ascii.eqb d c then 1 else 0) + count_char c s'
  end.

Definition first_char (s : string) : option ascii :=
  match s with String c _ => Some c | EmptyString => None end.

Fixpoint last_char (s : string) : option ascii :=
  match s with
  | EmptyString => None
  | String c EmptyString => Some c
  | String _ s' => last_char s'
  end.



(** ** Relations between worlds for the recording loop *)

Definition is_remove (e : Event) : bool :=
  match e with ERemoveCall _ => true | _ => false end.

(** An event of the camera: no call on an encoder, no removal. *)
Definition camera_event (e : Event) : bool :=
  negb (is_release e || is_write e || is_open e || is_remove e).

(** [w'] is reached from [w] by the camera alone: the directory and the
    encoder counters are as they were. *)
Definition camera_only (w w' : World) : Prop :=
  listing w' = listing w /\
  n_write w' = n_write w /\
  n_open w' = n_open w /\
  extends camera_event w w'.


Definition path_eqb (p q : Path) : bool :=
  String.eqb (dirname p) (dirname q) && String.eqb (basename p) (basename q).

(** Every [EWrite] of the trace goes to the file of the last [EOpen]
    before it ([active] is the file open at the start). *)
Fixpoint writes_follow_open (active : option Path) (es : list Event) : bool :=
  match es with
  | [] => true
  | EOpen p _ _ :: es' => writes_follow_open (Some p) es'
  | ERelease _ :: es' => writes_follow_open None es'
  | EWrite p _ :: es' =>
      match active with
      | Some q => path_eqb p q && writes_follow_open active es'
      | None => false
      end
  | _ :: es' => writes_follow_open active es'
  end.

(** From [w] to [w'] the writes follow the opens, starting with [a] open
    and ending with [a'] open. *)
Definition tracked (a a' : option Path) (w w' : World) : Prop :=
  exists es,
    events w' = events w ++ es /\
    writes_follow_open a es = true /\
    open_at_exit a es = a'.

(** Every [EOpen] of the trace carries the rate [f] and the size [s]. *)
Definition opens_with (f : Q) (s : Z * Z) (e : Event) : bool :=
  match e with
  | EOpen _ f' (wd, h) =>
      Qeq_bool f' f && (wd =? fst s)%Z && (h =? snd s)%Z
  | _ => true
  end.

(** An event that is no call on an encoder. *)
Definition no_encoder_event (e : Event) : bool :=
  negb (is_release e || is_write e || is_open e).

(** * IPCamera.next_frame *)

Section NextFrame.

Variable env : Env.
Variable self : IPCamera.

(** Leaving the loop through its test. *)
Lemma next_frame_quit_step (fuel : nat) (w : World) :
  quit_at env (n_is_set w) = true ->
  next_frame env self (S fuel) w =
  (Raise (UnboundLocalError "image"),
   mkWorld (S (n_is_set w)) (n_get w) (n_time w) (n_now w) (n_open w)
           (n_write w) (listing w) (previous w) (events w)).
Proof.
  intros Hq. cbn. unfold bind, quit_is_set. rewrite Hq. reflexivity.
Qed.

(** Every download either fails or yields a decoded image. *)
Lemma download_cases (w : World) :
  (exists exc, download_fails env (n_get w) exc) \/
  (exists body h wd,
      get_at env (n_get w) = inl body /\ imdecode env body = Some (h, wd)).
Proof.
  unfold download_fails.
  destruct (get_at env (n_get w)) as [body | e] eqn:Hg.
  - destruct (imdecode env body) as [[h wd] |] eqn:Hd.
    + right. eauto.
    + left. eexists. right. eauto.
  - left. eauto.
Qed.

(** One pass of the loop whose download succeeds. *)
Lemma next_frame_success (fuel : nat) (w : World) body h wd :
  quit_at env (n_is_set w) = false ->
  get_at env (n_get w) = inl body ->
  imdecode env body = Some (h, wd) ->
  exists img w',
    next_frame env self (S fuel) w = (Ret img, w') /\
    previous w' = Some img /\
    decoded_from env (n_get w) img /\
    n_get w' = S (n_get w) /\
    n_is_set w' = S (n_is_set w).
Proof.
  intros Hq Hg Hd. cbn.
  unfold bind, try_except, quit_is_set, requests_get, process_jpg.
  rewrite Hq. cbn. rewrite Hg. cbn. rewrite Hd. cbn.
  do 2 eexists. split; [reflexivity|]. cbn.
  repeat split. exists body. cbn. auto.
Qed.

(** One pass of the loop whose download fails while nothing is cached:
    the error is printed, [quit] is tested again, and the loop either
    re-raises or goes round. *)
Lemma next_frame_retry (fuel : nat) (w : World) (exc : exn) :
  previous w = None ->
  quit_at env (n_is_set w) = false ->
  download_fails env (n_get w) exc ->
  next_frame env self (S fuel) w =
    if quit_at env (S (n_is_set w)) then (Raise exc, failed_pass env self w exc)
    else next_frame env self fuel (failed_pass env self w exc).
Proof.
  intros Hp Hq Hf. cbn.
  unfold bind, try_except, quit_is_set, requests_get, process_jpg, failed_pass.
  rewrite Hq.
  destruct Hf as [Hg | (body & Hg & Hd & ->)]; cbn; rewrite Hg; cbn;
    [| rewrite Hd; cbn]; rewrite Hp; cbn; rewrite <- app_assoc; cbn;
    destruct (quit_at env (S (n_is_set w))); reflexivity.
Qed.



(** C10: with [quit] already set on entry the loop body is skipped and
    [return image] fails on the unbound local, whether or not a previous
    frame is cached: nothing is downloaded, nothing is printed and the
    cached frame is not returned. *)
Theorem next_frame_quit_on_entry (fuel : nat) (w : World) :
  quit_at env (n_is_set w) = true ->
  let r := next_frame env self (S fuel) w in
  fst r = Raise (UnboundLocalError "image") /\
  (forall prev, previous w = Some prev -> fst r <> Ret prev) /\
  n_get (snd r) = n_get w /\
  events (snd r) = events w /\
  previous (snd r) = previous w.
Proof.
  intros Hq. rewrite (next_frame_quit_step fuel w Hq). cbn.
  repeat split; intros; discriminate.
Qed.



End NextFrame.


(** The same run, evaluated: two failed passes, then the re-raise. *)
Example next_frame_no_cache_run :
  let r := next_frame (sample_env 3 (fun _ => true)) sample_camera 5
             empty_world in
  fst r = Raise (ExternalError "ConnectionError") /\
  n_is_set (snd r) = 4%nat /\ n_get (snd r) = 2%nat.
Proof. vm_compute. auto. Qed.


(** C10 on a camera that holds a cached frame. *)
Lemma next_frame_quit_on_entry_witness :
  let w := set_previous (Some sample_image) empty_world in
  let r := next_frame (sample_env 0 (fun _ => false)) sample_camera 1 w in
  fst r = Raise (UnboundLocalError "image") /\
  (forall prev, previous w = Some prev -> fst r <> Ret prev) /\
  n_get (snd r) = n_get w /\
  events (snd r) = events w /\
  previous (snd r) = previous w.
Proof.
  apply (next_frame_quit_on_entry (sample_env 0 (fun _ => false))
           sample_camera 0 (set_previous (Some sample_image) empty_world)).
  reflexivity.
Defined.

(** * IPCamera.__iter__ *)

Section Iter.

Variable env : Env.
Variable self : IPCamera.

(** The [while] test of the generator with [quit] set. *)
Lemma iter_loop_quit (fuel : nat) (st et yc : Q) (w : World) :
  quit_at env (n_is_set w) = true ->
  iter_loop env self fuel st et yc w =
  (Ret (None, GenDone),
   mkWorld (S (n_is_set w)) (n_get w) (n_time w) (n_now w) (n_open w)
           (n_write w) (listing w) (previous w) (events w)).
Proof.
  intros Hq. unfold iter_loop, bind, quit_is_set. rewrite Hq. reflexivity.
Qed.

(** C5: resumed (or started) with [quit] set, the generator stops: the
    consumer receives no frame, nothing is downloaded and nothing is
    slept; at most the completion line of a bounded recording is
    printed. *)
Theorem iter_stops_when_quit_set (fuel : nat) (g : Gen) (w : World) :
  quit_at env (n_is_set w) = true ->
  let r := iter_next env self fuel g w in
  fst r = Ret (None, GenDone) /\
  n_get (snd r) = n_get w /\
  previous (snd r) = previous w /\
  (events (snd r) = events w \/
   events (snd r) = events w ++ [EStderr (LCompleted (uri self))]).
Proof.
  intros Hq. destruct g as [| l |]; unfold iter_next.
  - unfold bind, time_time. rewrite iter_loop_quit by exact Hq. cbn. auto.
  - unfold bind at 1. unfold time_time. cbn -[iter_loop].
    destruct (0 <? duration self)%Z;
      [destruct (Qlt_bool (end_time l) (time_at env (n_time w)))|];
      try (rewrite iter_loop_quit by exact Hq); cbn; auto.
  - cbn. auto.
Qed.

End Iter.

(** C5 on a generator suspended at its [yield]. *)
Lemma iter_stops_when_quit_set_witness :
  let env := sample_env 0 (fun _ => false) in
  let g := GenAtYield (mkIterLocals 0 2 0 1) in
  let r := iter_next env sample_camera 3 g empty_world in
  fst r = Ret (None, GenDone) /\
  n_get (snd r) = n_get empty_world /\
  previous (snd r) = previous empty_world /\
  (events (snd r) = events empty_world \/
   events (snd r) =
     events empty_world ++ [EStderr (LCompleted (uri sample_camera))]).
Proof.
  apply (iter_stops_when_quit_set (sample_env 0 (fun _ => false))
           sample_camera 3 (GenAtYield (mkIterLocals 0 2 0 1)) empty_world).
  reflexivity.
Defined.

(** * Names and their order *)

Lemma string_leb_trans (a b c : string) :
  String.leb a b = true -> String.leb b c = true -> String.leb a c = true.
Proof.
  unfold String.leb. revert b c.
  induction a as [| x a IH]; intros [| y b] [| z c]; cbn; try congruence.
  unfold Ascii.compare.
  destruct (N.compare_spec (N_of_ascii x) (N_of_ascii y)) as [Exy | Lxy | Gxy];
    destruct (N.compare_spec (N_of_ascii y) (N_of_ascii z)) as [Eyz | Lyz | Gyz];
    destruct (N.compare_spec (N_of_ascii x) (N_of_ascii z)) as [Exz | Lxz | Gxz];
    try congruence; try lia.
  apply IH.
Qed.








(** ** The generated names match the pattern *)

Lemma append_assoc (a b c : string) :
  ((a ++ b) ++ c = a ++ (b ++ c))%string.
Proof. induction a as [| x a IH]; cbn; [reflexivity | now rewrite IH]. Qed.



Lemma well_padded_below (w : nat) (bound : N) :
  forallb (fun k => well_padded w (N.of_nat k)) (seq 0 (N.to_nat bound)) = true ->
  forall n, (n < bound)%N -> well_padded w n = true.
Proof.
  intros Hall n Hn. rewrite forallb_forall in Hall.
  rewrite <- (N2Nat.id n). apply Hall. apply in_seq. lia.
Qed.

Lemma pad2_digits (n : N) : (n < 100)%N -> well_padded 2 n = true.
Proof. apply well_padded_below. vm_compute. reflexivity. Qed.

Lemma pad4_digits (n : N) : (n < 10000)%N -> well_padded 4 n = true.
Proof. apply well_padded_below. vm_compute. reflexivity. Qed.



(** * Recorder.filepath_generator *)

Section Retention.

Variable env : Env.
Variable self : Recorder.

(** The removal loop never raises; it removes the names that the file
    system lets go and prints one line per name. *)
Lemma remove_names_spec (names : list string) :
  forall w,
  remove_names env self names w =
  (Ret tt,
   mkWorld (n_is_set w) (n_get w) (n_time w) (n_now w) (n_open w) (n_write w)
           (remove_all (filter (removable env) names) (listing w))
           (previous w)
           (events w ++ flat_map (removal_events env self) names)).
Proof.
  induction names as [| n names IH]; intros w.
  - cbn. rewrite app_nil_r. destruct w; reflexivity.
  - cbn [remove_names]. unfold bind at 1.
    unfold try_except, os_remove, bind, tell, print, removable, removal_events.
    cbn. destruct (remove_refused env n) eqn:Hr; cbn.
    + rewrite IH. cbn. rewrite <- !app_assoc. reflexivity.
    + rewrite IH. cbn. rewrite <- !app_assoc. reflexivity.
Qed.

Lemma cleanup_cache_spec (w : World) :
  cleanup_cache env self w = (Ret tt, cleaned env self w).
Proof.
  unfold cleanup_cache, cleaned, bind, os_listdir, print, tell.
  cbn -[sort].
  fold (matching self w). fold (count_matching self w).
  destruct (0 <? count_matching self w - cache self)%Z eqn:Hc.
  - rewrite remove_names_spec. cbn -[sort]. unfold surplus.
    rewrite <- app_assoc. reflexivity.
  - apply Z.ltb_ge in Hc. unfold surplus.
    replace (Z.to_nat (count_matching self w - cache self)) with 0%nat by lia.
    cbn. reflexivity.
Qed.

Lemma filepath_generator_quit (w : World) :
  quit_at env (n_is_set w) = true ->
  filepath_generator env self w = (Ret None, tested w).
Proof.
  intros Hq. unfold filepath_generator, bind, quit_is_set. rewrite Hq.
  reflexivity.
Qed.

(** A resumption of the name generator with [quit] clear: the cache
    control runs, then the name is built from the clock. *)
Lemma filepath_generator_spec (w : World) :
  quit_at env (n_is_set w) = false ->
  filepath_generator env self w =
  (Ret (Some (os_path_join (outdir self)
                (new_filename self (now_at env (n_now w))))),
   dated (cleaned env self (tested w))).
Proof.
  intros Hq. unfold filepath_generator, bind at 1, quit_is_set. rewrite Hq.
  unfold bind. fold (tested w). rewrite cleanup_cache_spec. reflexivity.
Qed.





















End Retention.





(** * Construction and main *)

Section Construction.

Variables (uri name outdir : string) (duration cache : Z) (verbose : bool).




End Construction.



(** * Recorder.run *)

(** ** Composing relations between worlds *)

Section Steps.

Variable R : World -> World -> Prop.
Hypothesis R_refl : forall w, R w w.
Hypothesis R_trans : forall w1 w2 w3, R w1 w2 -> R w2 w3 -> R w1 w3.

Lemma steps_ret {A} (a : A) : steps R (ret a).
Proof. intros w. apply R_refl. Qed.

Lemma steps_raise {A} (e : exn) : steps R (@raise A e).
Proof. intros w. apply R_refl. Qed.

Lemma steps_starved {A} : steps R (fun w => (@Starved A, w)).
Proof. intros w. apply R_refl. Qed.

Lemma steps_bind {A B} (c : M A) (k : A -> M B) :
  steps R c -> (forall a, steps R (k a)) -> steps R (bind c k).
Proof.
  intros Hc Hk w. unfold bind. specialize (Hc w).
  destruct (c w) as [[a | e |] w1]; cbn in *; try assumption.
  eapply R_trans; [exact Hc | apply Hk].
Qed.

Lemma steps_try_except {A} (c : M A) (h : exn -> M A) :
  steps R c -> (forall e, steps R (h e)) -> steps R (try_except c h).
Proof.
  intros Hc Hh w. unfold try_except. specialize (Hc w).
  destruct (c w) as [[a | e |] w1]; cbn in *; try assumption.
  eapply R_trans; [exact Hc | apply Hh].
Qed.

End Steps.

Lemma extends_refl (ok : Event -> bool) (w : World) : extends ok w w.
Proof. exists []. now rewrite app_nil_r. Qed.

Lemma extends_same_events (ok : Event -> bool) (w w' : World) :
  events w' = events w -> extends ok w w'.
Proof. intros H. exists []. now rewrite app_nil_r. Qed.

Lemma extends_trans (ok : Event -> bool) (w1 w2 w3 : World) :
  extends ok w1 w2 -> extends ok w2 w3 -> extends ok w1 w3.
Proof.
  intros (es1 & H1 & Hok1) (es2 & H2 & Hok2). exists (es1 ++ es2).
  rewrite H2, H1, app_assoc, forallb_app, Hok1, Hok2. auto.
Qed.

Lemma extends_weaken (ok ok' : Event -> bool) (w w' : World) :
  (forall e, ok e = true -> ok' e = true) ->
  extends ok w w' -> extends ok' w w'.
Proof.
  intros Himp (es & H & Hok). exists es. split; [assumption|].
  rewrite forallb_forall in *. auto.
Qed.

Lemma quiet_refl (w : World) : quiet w w.
Proof. split; [reflexivity | apply extends_refl]. Qed.

Lemma quiet_trans (w1 w2 w3 : World) : quiet w1 w2 -> quiet w2 w3 -> quiet w1 w3.
Proof.
  intros [Hn1 He1] [Hn2 He2]. split; [congruence|].
  eapply extends_trans; eassumption.
Qed.

Lemma quiet_unreleased (w w' : World) : quiet w w' -> unreleased w w'.
Proof.
  intros [_ He]. revert He. apply extends_weaken.
  intros e He. apply andb_prop in He. tauto.
Qed.

Lemma unreleased_refl (w : World) : unreleased w w.
Proof. apply extends_refl. Qed.

Lemma unreleased_trans (w1 w2 w3 : World) :
  unreleased w1 w2 -> unreleased w2 w3 -> unreleased w1 w3.
Proof. apply extends_trans. Qed.

Lemma quiet_tell (e : Event) :
  is_release e = false -> is_write e = false -> steps quiet (tell e).
Proof.
  intros Hr Hw w. split; [reflexivity|]. exists [e]. cbn.
  now rewrite Hr, Hw.
Qed.

Lemma quiet_ret {A} (a : A) : steps quiet (ret a).
Proof. apply steps_ret, quiet_refl. Qed.

Lemma quiet_raise {A} (e : exn) : steps quiet (@raise A e).
Proof. apply steps_raise, quiet_refl. Qed.

Lemma quiet_starved {A} : steps quiet (fun w => (@Starved A, w)).
Proof. apply steps_starved, quiet_refl. Qed.

Lemma quiet_bind {A B} (c : M A) (k : A -> M B) :
  steps quiet c -> (forall a, steps quiet (k a)) -> steps quiet (bind c k).
Proof. apply steps_bind, quiet_trans. Qed.

Lemma quiet_try_except {A} (c : M A) (h : exn -> M A) :
  steps quiet c -> (forall e, steps quiet (h e)) ->
  steps quiet (try_except c h).
Proof. apply steps_try_except, quiet_trans. Qed.

(** Decompose a goal [steps quiet c] along the structure of [c]. *)
Ltac quiet_step :=
  first
    [ assumption
    | match goal with H : _ |- steps _ _ => apply H end
    | apply quiet_ret
    | apply quiet_raise
    | apply quiet_starved
    | apply quiet_tell; reflexivity
    | apply quiet_bind; [| intros ?]
    | apply quiet_try_except; [| intros ?]
    | match goal with
      | |- steps _ (if ?b then _ else _) => destruct b
      | |- steps _ (match ?x with _ => _ end) => destruct x
      end ].

Ltac quiet_steps := repeat quiet_step.

Section Quiet.

Variable env : Env.

Lemma quiet_quit_is_set : steps quiet (quit_is_set env).
Proof. intros w. split; [|apply extends_same_events]; reflexivity. Qed.

Lemma quiet_time_time : steps quiet (time_time env).
Proof. intros w. split; [|apply extends_same_events]; reflexivity. Qed.

Lemma quiet_datetime_now : steps quiet (datetime_now env).
Proof. intros w. split; [|apply extends_same_events]; reflexivity. Qed.

Lemma quiet_requests_get (u : string) (t : Q) : steps quiet (requests_get env u t).
Proof.
  intros w. unfold requests_get.
  destruct (get_at env (n_get w)); (split; [reflexivity|]);
    exists [EGet u t]; auto.
Qed.

Lemma quiet_time_sleep (secs : Q) : steps quiet (time_sleep secs).
Proof. unfold time_sleep. quiet_steps. Qed.

Lemma quiet_process_jpg (self : IPCamera) (data : string) :
  steps quiet (process_jpg env self data).
Proof.
  pose proof quiet_datetime_now. unfold process_jpg. quiet_steps.
Qed.

Lemma quiet_next_frame (self : IPCamera) (fuel : nat) :
  steps quiet (next_frame env self fuel).
Proof.
  pose proof quiet_quit_is_set. pose proof (quiet_requests_get).
  pose proof (quiet_process_jpg).
  induction fuel as [| fuel IH]; cbn [next_frame]; quiet_steps.
  intros w. destruct (previous w);
    refine ((_ : steps quiet _) w); quiet_steps.
Qed.

Lemma quiet_iter_next (self : IPCamera) (fuel : nat) (g : Gen) :
  steps quiet (iter_next env self fuel g).
Proof.
  pose proof quiet_quit_is_set. pose proof quiet_time_time.
  pose proof quiet_time_sleep. pose proof (quiet_next_frame self fuel).
  unfold iter_next, iter_loop, print_stderr. quiet_steps.
Qed.

Lemma removal_events_quiet (self : Recorder) (names : list string) :
  forallb (fun e => negb (is_release e) && negb (is_write e))
          (flat_map (removal_events env self) names) = true.
Proof.
  induction names as [| n names IH]; [reflexivity|].
  cbn [flat_map]. rewrite forallb_app, IH. unfold removal_events.
  destruct (remove_refused env n); reflexivity.
Qed.

Lemma quiet_filepath_generator (self : Recorder) :
  steps quiet (filepath_generator env self).
Proof.
  intros w. destruct (quit_at env (n_is_set w)) eqn:Hq.
  - rewrite filepath_generator_quit by exact Hq.
    split; [|apply extends_same_events]; reflexivity.
  - rewrite filepath_generator_spec by exact Hq.
    split; [reflexivity|]. eexists. split; [reflexivity|].
    cbn [forallb]. apply removal_events_quiet.
Qed.

Lemma quiet_VideoWriter (filepath : Path) (fps : Q) (size : Z * Z) :
  steps quiet (VideoWriter env filepath fps size).
Proof.
  intros w. split; [reflexivity|]. exists [EOpen filepath fps size]. auto.
Qed.

End Quiet.

(** ** No encoder is ever released *)

Section Release.

Variable env : Env.
Variable self : Recorder.

Lemma unreleased_video_write (video : Path) (frame : Image) :
  steps unreleased (video_write env video frame).
Proof.
  intros w. exists [EWrite video frame]. unfold video_write, bind, tell.
  cbn. destruct (write_at env (n_write w)); auto.
Qed.

Lemma unreleased_of_quiet {A} (c : M A) : steps quiet c -> steps unreleased c.
Proof. intros H w. apply quiet_unreleased, H. Qed.

Lemma unreleased_bind {A B} (c : M A) (k : A -> M B) :
  steps unreleased c -> (forall a, steps unreleased (k a)) ->
  steps unreleased (bind c k).
Proof. apply steps_bind, unreleased_trans. Qed.

Lemma unreleased_record_frames (video : Path) (fuel : nat) :
  forall g stime, steps unreleased (record_frames env self video fuel g stime).
Proof.
  induction fuel as [| fuel IH]; intros g stime; cbn [record_frames].
  - intros w. apply unreleased_refl.
  - apply unreleased_bind; [apply unreleased_of_quiet, quiet_iter_next|].
    intros [[frame |] g']; [| intros w; apply unreleased_refl].
    apply unreleased_bind; [apply unreleased_video_write|]. intros _.
    apply unreleased_bind; [| intros stime'; apply IH].
    apply unreleased_of_quiet. pose proof (quiet_time_time env).
    unfold print. quiet_steps.
Qed.

Lemma unreleased_record_files (size : Z * Z) (fuel : nat) :
  steps unreleased (record_files env self size fuel).
Proof.
  induction fuel as [| fuel IH]; cbn [record_files].
  - intros w. apply unreleased_refl.
  - apply unreleased_bind;
      [apply unreleased_of_quiet, quiet_filepath_generator|].
    intros [filepath |]; [| intros w; apply unreleased_refl].
    apply unreleased_bind;
      [apply unreleased_of_quiet, quiet_tell; reflexivity|]. intros _.
    apply unreleased_bind; [apply unreleased_of_quiet, quiet_VideoWriter|].
    intros video.
    apply unreleased_bind; [apply unreleased_of_quiet, quiet_time_time|].
    intros stime.
    apply unreleased_bind; [apply unreleased_record_frames|]. intros _.
    exact IH.
Qed.

Lemma unreleased_run (fuel : nat) : steps unreleased (run env self fuel).
Proof.
  unfold run. apply unreleased_bind.
  - apply unreleased_of_quiet, quiet_next_frame.
  - intros image. apply unreleased_record_files.
Qed.

(** Without a release, a handle that is open stays open. *)
Lemma open_at_exit_unreleased (es : list Event) :
  forall active,
  forallb (fun e => negb (is_release e)) es = true ->
  (active <> None \/ existsb is_open es = true) ->
  open_at_exit active es <> None.
Proof.
  induction es as [| e es IH]; cbn; intros active Hok Hopen.
  - destruct Hopen as [H | H]; [assumption | discriminate].
  - apply andb_prop in Hok as [He Hok].
    destruct e; cbn in *; try discriminate; apply IH; auto;
      left; discriminate.
Qed.

(** No [EOpen] of a trace without releases finds the previous handle
    released. *)
Lemma sealed_before_open_unreleased (es : list Event) :
  forall p,
  forallb (fun e => negb (is_release e)) es = true ->
  existsb is_open es = true ->
  sealed_before_open (Some p) es = false.
Proof.
  induction es as [| e es IH]; cbn; intros p Hok Hopen; [discriminate|].
  apply andb_prop in Hok as [He Hok].
  destruct e; cbn in *; try discriminate; auto.
Qed.

End Release.

(** C4, amended: [run] never releases an encoder.  Whatever the
    environment does, the events that it adds hold no release; so a
    file opened while another is open finds that one unreleased, and
    once a file has been opened a handle is still open when [run]
    ends, however it ends. *)
Theorem run_never_releases (env : Env) (self : Recorder) (fuel : nat)
    (w : World) :
  exists es,
    events (snd (run env self fuel w)) = events w ++ es /\
    forallb (fun e => negb (is_release e)) es = true /\
    (forall p, existsb is_open es = true ->
               sealed_before_open (Some p) es = false) /\
    (existsb is_open es = true -> open_at_exit None es <> None).
Proof.
  destruct (unreleased_run env self fuel w) as (es & Hes & Hok).
  exists es. split; [exact Hes|]. split; [exact Hok|]. split.
  - intros p Hopen. now apply sealed_before_open_unreleased.
  - intros Hopen. apply open_at_exit_unreleased; auto.
Qed.

(** A whole run, evaluated: five files are recorded with three allowed,
    then the shutdown is seen by the name generator.  The fifth cache
    control found four names and removed the oldest; the file opened
    after it makes four again. *)
Example run_five_segments :
  let r := run (sample_env 16 (fun _ => false)) (sample_recorder 3) 30
             empty_world in
  fst r = Ret tt /\
  listing (snd r) = [segment 3; segment 5; segment 7; segment 9] /\
  filter (fun e => match e with ERemoveCall _ => true | _ => false end)
         (events (snd r)) = [ERemoveCall (os_path_join "." (segment 1))] /\
  count_matching (sample_recorder 3) (snd r) = 4%Z.
Proof. vm_compute. repeat split. Qed.

(** C4 on a run that records five files. *)
Lemma run_never_releases_witness :
  let r := run (sample_env 16 (fun _ => false)) (sample_recorder 3) 30
             empty_world in
  exists es,
    events (snd r) = events empty_world ++ es /\
    forallb (fun e => negb (is_release e)) es = true /\
    (forall p, existsb is_open es = true ->
               sealed_before_open (Some p) es = false) /\
    (existsb is_open es = true -> open_at_exit None es <> None).
Proof.
  apply (run_never_releases (sample_env 16 (fun _ => false))
           (sample_recorder 3) 30 empty_world).
Defined.

(** C4 as stated fails: in this run of five files, ended by the
    shutdown, no encoder is released, each file after the first is
    opened over an unreleased one, and the fifth is open at the end. *)
Lemma segments_left_unsealed :
  let r := run (sample_env 16 (fun _ => false)) (sample_recorder 3) 30
             empty_world in
  fst r = Ret tt /\
  List.length (filter is_open (events (snd r))) = 5%nat /\
  filter is_release (events (snd r)) = [] /\
  sealed_before_open None (events (snd r)) = false /\
  open_at_exit None (events (snd r)) = Some (os_path_join "." (segment 9)).
Proof. vm_compute. repeat split. Qed.

(** ** A failed write ends the worker *)

Section WriteFailure.

Variable env : Env.
Variable self : Recorder.

Lemma stops_of_quiet {A} (c : M A) :
  steps quiet c -> stops_at_failed_write env c.
Proof.
  intros Hq w. destruct (Hq w) as [Hn _]. split; [lia|].
  intros i e Hi Hw. exfalso. lia.
Qed.

Lemma stops_ret {A} (a : A) : stops_at_failed_write env (ret a).
Proof. apply stops_of_quiet, quiet_ret. Qed.

Lemma stops_starved {A} :
  stops_at_failed_write env (fun w => (@Starved A, w)).
Proof. apply stops_of_quiet, quiet_starved. Qed.

Lemma stops_bind {A B} (c : M A) (k : A -> M B) :
  stops_at_failed_write env c ->
  (forall a, stops_at_failed_write env (k a)) ->
  stops_at_failed_write env (bind c k).
Proof.
  intros Hc Hk w. unfold bind. specialize (Hc w).
  destruct (c w) as [[a | e1 |] w1]; cbn [fst snd] in *.
  - destruct Hc as [Hle1 Hc]. destruct (Hk a w1) as [Hle2 Hk'].
    split; [lia|]. intros i e Hi Hw.
    destruct (Nat.lt_ge_cases i (n_write w1)) as [Hlt | Hge].
    + destruct (Hc i e ltac:(lia) Hw) as [Habs _]. discriminate.
    + apply Hk'; [lia | exact Hw].
  - destruct Hc as [Hle1 Hc]. split; [exact Hle1|]. intros i e Hi Hw.
    destruct (Hc i e Hi Hw) as ([= ->] & Hn & Hev). auto.
  - destruct Hc as [Hle1 Hc]. split; [exact Hle1|]. intros i e Hi Hw.
    destruct (Hc i e Hi Hw) as (Habs & _). discriminate.
Qed.

Lemma stops_video_write (video : Path) (frame : Image) :
  stops_at_failed_write env (video_write env video frame).
Proof.
  intros w. unfold video_write, bind, tell. cbn [fst snd].
  destruct (write_at env (n_write (emit (EWrite video frame) w))) eqn:Hw;
    cbn [fst snd n_write emit events] in *;
    unfold write_failure_is_final; cbn [n_write events].
  - split; [lia|]. intros i e' Hi Hw'.
    assert (i = n_write w) as -> by lia. rewrite Hw in Hw'.
    injection Hw' as <-. repeat split. eauto.
  - split; [lia|]. intros i e' Hi Hw'.
    assert (i = n_write w) as -> by lia. congruence.
Qed.

Lemma stops_record_frames (video : Path) (fuel : nat) :
  forall g stime,
  stops_at_failed_write env (record_frames env self video fuel g stime).
Proof.
  induction fuel as [| fuel IH]; intros g stime; cbn [record_frames].
  - apply stops_starved.
  - apply stops_bind; [apply stops_of_quiet, quiet_iter_next|].
    intros [[frame |] g']; [| apply stops_ret].
    apply stops_bind; [apply stops_video_write|]. intros _.
    apply stops_bind; [| intros stime'; apply IH].
    apply stops_of_quiet. pose proof (quiet_time_time env).
    unfold print. quiet_steps.
Qed.

Lemma stops_record_files (size : Z * Z) (fuel : nat) :
  stops_at_failed_write env (record_files env self size fuel).
Proof.
  induction fuel as [| fuel IH]; cbn [record_files].
  - apply stops_starved.
  - apply stops_bind; [apply stops_of_quiet, quiet_filepath_generator|].
    intros [filepath |]; [| apply stops_ret].
    apply stops_bind; [apply stops_of_quiet, quiet_tell; reflexivity|].
    intros _.
    apply stops_bind; [apply stops_of_quiet, quiet_VideoWriter|].
    intros video.
    apply stops_bind; [apply stops_of_quiet, quiet_time_time|].
    intros stime.
    apply stops_bind; [apply stops_record_frames|]. intros _.
    exact IH.
Qed.

(** C6, amended: [run] does not handle a failing write.  The first
    [video.write] that raises ends [run] with that exception: it is the
    last write and the last event of the run, so nothing is printed
    about it, no later frame is written and no failure is counted. *)
Theorem write_failure_ends_run (fuel : nat) (w : World) (i : nat) (e : exn) :
  (n_write w <= i < n_write (snd (run env self fuel w)))%nat ->
  write_at env i = Some e ->
  fst (run env self fuel w) = Raise e /\
  n_write (snd (run env self fuel w)) = S i /\
  exists es video frame,
    events (snd (run env self fuel w)) = es ++ [EWrite video frame].
Proof.
  assert (stops_at_failed_write env (run env self fuel)) as Hrun.
  { unfold run. apply stops_bind.
    - apply stops_of_quiet, quiet_next_frame.
    - intros image. apply stops_record_files. }
  intros Hi Hw. destruct (Hrun w) as [_ H]. exact (H i e Hi Hw).
Qed.

End WriteFailure.

(** C6 on an encoder whose first write fails. *)
Lemma write_failure_ends_run_witness :
  let r := run failing_writer_env (sample_recorder 3) 30 empty_world in
  fst r = Raise (ExternalError "cv2.error") /\
  n_write (snd r) = 1%nat /\
  exists es video frame, events (snd r) = es ++ [EWrite video frame].
Proof.
  apply (write_failure_ends_run failing_writer_env (sample_recorder 3) 30
           empty_world 0 (ExternalError "cv2.error")).
  - vm_compute. split; constructor.
  - reflexivity.
Defined.

(** C6 as stated fails: the first failing write, not the third, stops
    the worker, with an exception that leaves [run]; the trace ends at
    that write, with no line printed about it. *)
Lemma first_write_failure_is_fatal :
  let env := failing_writer_env in
  let self := sample_recorder 3 in
  let video := os_path_join "." (segment 1) in
  let r := run env self 30 empty_world in
  write_at env 0 = Some (ExternalError "cv2.error") /\
  write_at env 1 = None /\ write_at env 2 = None /\
  fst r = Raise (ExternalError "cv2.error") /\
  n_write (snd r) = 1%nat /\
  events (snd r) =
    [EGet "http://cam/img.jpg" 1;
     EStdout (LNames []);
     EStdout (LRecordingTo video);
     EOpen video 1 (640, 480)%Z;
     EGet "http://cam/img.jpg" 1;
     ESleep 0;
     EWrite video (mkImage 480 640 jpg_body "front 20140309 07:05:02")].
Proof. vm_compute. repeat split. Qed.

(** * Further properties of IPCamera.next_frame *)

Section NextFrameMore.

Variable env : Env.
Variable self : IPCamera.

(** One pass of the loop whose download fails while a frame is cached. *)
Lemma next_frame_fallback_step (fuel : nat) (w : World) (prev : Image)
    (exc : exn) :
  previous w = Some prev ->
  quit_at env (n_is_set w) = false ->
  download_fails env (n_get w) exc ->
  next_frame env self (S fuel) w = (Ret prev, fell_back env self w exc).
Proof.
  intros Hp Hq Hf. cbn.
  unfold bind, try_except, quit_is_set, requests_get, process_jpg, fell_back.
  rewrite Hq.
  destruct Hf as [Hg | (body & Hg & Hd & ->)]; cbn; rewrite Hg; cbn;
    [| rewrite Hd; cbn]; rewrite Hp; unfold ret, emit; cbn;
    rewrite <- app_assoc; reflexivity.
Qed.

(** X1: whatever frame [next_frame] returns is the frame that the camera
    holds in [previous] when the call ends, be it fresh or stale. *)
Theorem next_frame_returns_the_cache (fuel : nat) :
  forall (w : World) (img : Image) (w' : World),
  next_frame env self fuel w = (Ret img, w') ->
  previous w' = Some img.
Proof.
  induction fuel as [| fuel IH]; intros w img w' Hrun.
  - cbn in Hrun. discriminate.
  - destruct (quit_at env (n_is_set w)) eqn:Hq.
    + rewrite (next_frame_quit_step env self fuel w Hq) in Hrun. discriminate.
    + destruct (download_cases env w) as [[exc Hf] | (body & h & wd & Hg & Hd)].
      * destruct (previous w) as [prev |] eqn:Hp.
        -- rewrite (next_frame_fallback_step fuel w prev exc Hp Hq Hf) in Hrun.
           injection Hrun as <- <-. exact Hp.
        -- rewrite (next_frame_retry env self fuel w exc Hp Hq Hf) in Hrun.
           destruct (quit_at env (S (n_is_set w))); [discriminate|].
           exact (IH _ _ _ Hrun).
      * destruct (next_frame_success env self fuel w body h wd Hq Hg Hd)
          as (img0 & w0 & Hstep & Hprev & _).
        rewrite Hstep in Hrun. injection Hrun as <- <-. exact Hprev.
Qed.


End NextFrameMore.

Section NextFrameRetry.

Variable env : Env.
Variable self : IPCamera.


End NextFrameRetry.

(** X1 on a first call that succeeds. *)
Lemma next_frame_returns_the_cache_witness :
  previous (snd (next_frame (sample_env 5 (fun _ => false)) sample_camera 1
                   empty_world)) = Some sample_image.
Proof.
  apply (next_frame_returns_the_cache (sample_env 5 (fun _ => false))
           sample_camera 1 empty_world sample_image
           (snd (next_frame (sample_env 5 (fun _ => false)) sample_camera 1
                   empty_world))).
  reflexivity.
Defined.



(** * Further properties of IPCamera.__iter__ *)



Lemma Qlt_bool_iff (a b : Q) : Qlt_bool a b = true <-> a < b.
Proof.
  unfold Qlt_bool. rewrite negb_true_iff. split.
  - intros H. apply Qnot_le_lt. intros Hle.
    apply Qle_bool_iff in Hle. congruence.
  - intros H. destruct (Qle_bool b a) eqn:Hb; [|reflexivity].
    apply Qle_bool_iff in Hb. lra.
Qed.


Section IterMore.

Variable env : Env.
Variable self : IPCamera.

(** X4: a bounded recording ends at the first resumption whose clock
    reading is after [end_time]: the completion line is printed and the
    sequence stops, without a test of the flag and without a request. *)
Theorem iter_completes_after_duration (fuel : nat) (l : IterLocals)
    (w : World) :
  (0 < duration self)%Z ->
  end_time l < time_at env (n_time w) ->
  let r := iter_next env self fuel (GenAtYield l) w in
  fst r = Ret (None, GenDone) /\
  events (snd r) = events w ++ [EStderr (LCompleted (uri self))] /\
  n_is_set (snd r) = n_is_set w /\
  n_get (snd r) = n_get w.
Proof.
  intros Hd Hlate r. subst r. apply Z.ltb_lt in Hd.
  apply Qlt_bool_iff in Hlate.
  assert (iter_next env self fuel (GenAtYield l) w =
          (print_stderr (LCompleted (uri self)) ;;; ret (None, GenDone))
            (snd (time_time env w))) as ->.
  { cbn [iter_next]. unfold bind at 1, time_time. cbn [snd].
    now rewrite Hd, Hlate. }
  cbn. auto.
Qed.

(** The only way out of a pass of the generator's loop without a frame
    and without an exception is the test of the flag. *)
Lemma iter_loop_none (fuel : nat) (st et yc : Q) (w : World) g' w' :
  iter_loop env self fuel st et yc w = (Ret (None, g'), w') ->
  quit_at env (n_is_set w) = true.
Proof.
  unfold iter_loop, bind at 1, quit_is_set.
  destruct (quit_at env (n_is_set w)); [reflexivity|].
  unfold bind at 1.
  destruct (next_frame env self fuel _) as [[image | e |] w1];
    [| discriminate | discriminate].
  unfold bind at 1, time_time.
  destruct (Qeq_bool _ 0); [discriminate|].
  unfold bind at 1.
  match goal with
  | |- context [(if ?c then ?a else ?b) ?x] => destruct ((if c then a else b) x)
      as [[[] | e |] w2]
  end; discriminate.
Qed.

(** X5: an unbounded recording ([duration <= 0]) never ends by itself:
    a live generator stops without an exception only when its test of
    the flag answers true. *)
Theorem iter_unbounded_ends_only_on_quit (fuel : nat) (g : Gen) (w : World)
    g' w' :
  (duration self <= 0)%Z ->
  g <> GenDone ->
  iter_next env self fuel g w = (Ret (None, g'), w') ->
  quit_at env (n_is_set w) = true.
Proof.
  intros Hd Hg Hrun. destruct g as [| l |]; [| | congruence].
  - cbn [iter_next] in Hrun. unfold bind at 1, time_time in Hrun.
    exact (iter_loop_none _ _ _ _ _ _ _ Hrun).
  - cbn [iter_next] in Hrun. unfold bind at 1, time_time in Hrun.
    apply Z.ltb_ge in Hd. rewrite Hd in Hrun.
    exact (iter_loop_none _ _ _ _ _ _ _ Hrun).
Qed.








End IterMore.

(** X4 on a generator resumed three seconds after its start. *)
Lemma iter_completes_after_duration_witness :
  let env := sample_env 9 (fun _ => false) in
  let w := mkWorld 0 0 3 0 0 0 [] None [] in
  let r := iter_next env sample_camera 3 (GenAtYield (mkIterLocals 0 2 0 1)) w in
  fst r = Ret (None, GenDone) /\
  events (snd r) = events w ++ [EStderr (LCompleted (uri sample_camera))] /\
  n_is_set (snd r) = n_is_set w /\
  n_get (snd r) = n_get w.
Proof.
  apply (iter_completes_after_duration (sample_env 9 (fun _ => false))
           sample_camera 3 (mkIterLocals 0 2 0 1)
           (mkWorld 0 0 3 0 0 0 [] None [])).
  - reflexivity.
  - reflexivity.
Defined.

(** X5 on a generator started with the flag set. *)
Lemma iter_unbounded_ends_only_on_quit_witness :
  quit_at (sample_env 0 (fun _ => false)) (n_is_set empty_world) = true.
Proof.
  apply (iter_unbounded_ends_only_on_quit (sample_env 0 (fun _ => false))
           unbounded_camera 3 GenNew empty_world GenDone
           (snd (iter_next (sample_env 0 (fun _ => false)) unbounded_camera 3
                   GenNew empty_world))).
  - discriminate.
  - discriminate.
  - reflexivity.
Defined.



(** * Further properties of the file names *)

Lemma compare_refl (s : string) : String.compare s s = Eq.
Proof.
  induction s as [| c s IH]; cbn; [reflexivity|].
  unfold Ascii.compare. now rewrite N.compare_refl.
Qed.

Lemma compare_lt_trans (a b c : string) :
  String.compare a b = Lt -> String.compare b c = Lt ->
  String.compare a c = Lt.
Proof.
  intros Hab Hbc.
  assert (String.leb a c = true) as Hle.
  { apply (string_leb_trans a b c); unfold String.leb; [now rewrite Hab | now rewrite Hbc]. }
  unfold String.leb in Hle.
  destruct (String.compare a c) eqn:Hac; [| reflexivity | discriminate].
  apply String.compare_eq_iff in Hac. subst c.
  rewrite String.compare_antisym, Hab in Hbc. discriminate.
Qed.

(** Strings of equal length in front decide the comparison. *)
Lemma compare_app_same_length (a1 : string) :
  forall a2 b1 b2,
  String.length a1 = String.length a2 ->
  String.compare (a1 ++ b1) (a2 ++ b2) =
  then_compare (String.compare a1 a2) (String.compare b1 b2).
Proof.
  induction a1 as [| c a1 IH]; intros [| d a2] b1 b2 Hlen; cbn in *;
    try discriminate; [reflexivity|].
  destruct (Ascii.compare c d); try reflexivity.
  apply IH. now injection Hlen.
Qed.

Lemma compare_same_prefix (p a b : string) :
  String.compare (p ++ a) (p ++ b) = String.compare a b.
Proof.
  rewrite compare_app_same_length by reflexivity.
  now rewrite compare_refl.
Qed.

Lemma pad_increases (w : nat) (bound : N) :
  pads_increase w bound = true ->
  forall (d : nat) (n : N),
  (n + N.of_nat (S d) < bound)%N ->
  String.compare (pad w n) (pad w (n + N.of_nat (S d))) = Lt.
Proof.
  intros Hall. unfold pads_increase in Hall. rewrite forallb_forall in Hall.
  assert (forall n, (n + 1 < bound)%N ->
            String.compare (pad w n) (pad w (n + 1)) = Lt) as Hstep.
  { intros n Hn. specialize (Hall (N.to_nat n)).
    rewrite N2Nat.id in Hall.
    replace (N.of_nat (S (N.to_nat n))) with (n + 1)%N in Hall by lia.
    destruct (String.compare (pad w n) (pad w (n + 1))); try reflexivity;
      (assert (false = true) as Habs by (apply Hall, in_seq; lia);
       discriminate). }
  induction d as [| d IH]; intros n Hn.
  - apply Hstep. lia.
  - apply (compare_lt_trans _ (pad w (n + N.of_nat (S d)))).
    + apply IH. lia.
    + replace (n + N.of_nat (S (S d)))%N with (n + N.of_nat (S d) + 1)%N by lia.
      apply Hstep. lia.
Qed.

Lemma pad_compare (w : nat) (bound : N) (n m : N) :
  pads_increase w bound = true ->
  (n < bound)%N -> (m < bound)%N ->
  String.compare (pad w n) (pad w m) = N.compare n m.
Proof.
  intros Hall Hn Hm. destruct (N.compare_spec n m) as [-> | Hlt | Hgt].
  - apply compare_refl.
  - replace m with (n + N.of_nat (S (N.to_nat (m - n) - 1)))%N by lia.
    apply (pad_increases w bound Hall). lia.
  - rewrite String.compare_antisym.
    replace n with (m + N.of_nat (S (N.to_nat (n - m) - 1)))%N at 1 by lia.
    rewrite (pad_increases w bound Hall) by lia. reflexivity.
Qed.

Lemma pad2_increase : pads_increase 2 100 = true.
Proof. vm_compute. reflexivity. Qed.

Lemma pad4_increase : pads_increase 4 10000 = true.
Proof. vm_compute. reflexivity. Qed.

Lemma pad_length (w : nat) (n : N) :
  well_padded w n = true -> String.length (pad w n) = w.
Proof.
  unfold well_padded. intros H. apply andb_prop in H as [_ H].
  now apply Nat.eqb_eq.
Qed.

(** Comparing two padded fields, then what follows them. *)
Lemma compare_padded (w : nat) (bound : N) (n m : N) (r1 r2 : string) :
  pads_increase w bound = true ->
  (forall k, (k < bound)%N -> well_padded w k = true) ->
  (n < bound)%N -> (m < bound)%N ->
  String.compare (pad w n ++ r1) (pad w m ++ r2) =
  then_compare (N.compare n m) (String.compare r1 r2).
Proof.
  intros Hinc Hpad Hn Hm.
  rewrite compare_app_same_length
    by (rewrite !pad_length by (apply Hpad; assumption); reflexivity).
  now rewrite (pad_compare w bound).
Qed.

Lemma strftime_file_compare (d1 d2 : DateTime) (r : string) :
  valid_date d1 -> valid_date d2 ->
  String.compare (strftime_file d1 ++ r) (strftime_file d2 ++ r) =
  date_compare d1 d2.
Proof.
  intros (Hy1 & Hm1 & Hd1 & Hh1 & Hmi1 & Hs1) (Hy2 & Hm2 & Hd2 & Hh2 & Hmi2 & Hs2).
  unfold strftime_file, date_compare. rewrite !append_assoc.
  rewrite (compare_padded 4 10000) by (auto using pad4_increase, pad4_digits; lia).
  f_equal.
  rewrite (compare_padded 2 100) by (auto using pad2_increase, pad2_digits; lia).
  f_equal.
  rewrite (compare_padded 2 100) by (auto using pad2_increase, pad2_digits; lia).
  f_equal.
  rewrite (compare_same_prefix "_").
  rewrite (compare_padded 2 100) by (auto using pad2_increase, pad2_digits; lia).
  f_equal.
  rewrite (compare_padded 2 100) by (auto using pad2_increase, pad2_digits; lia).
  f_equal.
  rewrite (compare_padded 2 100) by (auto using pad2_increase, pad2_digits; lia).
  rewrite compare_refl. now destruct (second d1 ?= second d2)%N.
Qed.

Lemma date_compare_eq (d1 d2 : DateTime) :
  date_compare d1 d2 = Eq -> d1 = d2.
Proof.
  destruct d1 as [y1 mo1 da1 h1 mi1 s1], d2 as [y2 mo2 da2 h2 mi2 s2].
  unfold date_compare, then_compare. cbn.
  destruct (N.compare_spec y1 y2); try discriminate.
  destruct (N.compare_spec mo1 mo2); try discriminate.
  destruct (N.compare_spec da1 da2); try discriminate.
  destruct (N.compare_spec h1 h2); try discriminate.
  destruct (N.compare_spec mi1 mi2); try discriminate.
  destruct (N.compare_spec s1 s2); try discriminate.
  intros _. congruence.
Qed.

Section Names.

Variable self : Recorder.

Lemma new_filename_compare (d1 d2 : DateTime) :
  valid_date d1 -> valid_date d2 ->
  String.compare (new_filename self d1) (new_filename self d2) =
  date_compare d1 d2.
Proof.
  intros H1 H2. unfold new_filename.
  rewrite compare_same_prefix, (compare_same_prefix "_").
  now apply strftime_file_compare.
Qed.

(** X8: the byte order of two generated names of a channel is the
    calendar order of the dates they were built from; so sorting the
    names sorts the files by age. *)
Theorem names_order_is_calendar_order (d1 d2 : DateTime) :
  valid_date d1 -> valid_date d2 ->
  String.compare (new_filename self d1) (new_filename self d2) =
  date_compare d1 d2.
Proof.
  apply new_filename_compare.
Qed.

(** X9: two rotations get the same name only when their dates agree to
    the second. *)
Theorem same_name_same_second (d1 d2 : DateTime) :
  valid_date d1 -> valid_date d2 ->
  new_filename self d1 = new_filename self d2 ->
  d1 = d2.
Proof.
  intros H1 H2 Heq. apply date_compare_eq.
  rewrite <- (new_filename_compare d1 d2 H1 H2), Heq.
  apply compare_refl.
Qed.

End Names.

(** X8 on two dates one second apart. *)
Lemma names_order_is_calendar_order_witness :
  String.compare (new_filename (sample_recorder 3) (sample_date 8))
                 (new_filename (sample_recorder 3) (sample_date 9)) =
  date_compare (sample_date 8) (sample_date 9).
Proof.
  apply (names_order_is_calendar_order (sample_recorder 3) (sample_date 8)
           (sample_date 9)).
  - vm_compute. repeat split; discriminate.
  - vm_compute. repeat split; discriminate.
Defined.

(** X9 on one date. *)
Lemma same_name_same_second_witness : sample_date 8 = sample_date 8.
Proof.
  apply (same_name_same_second (sample_recorder 3) (sample_date 8)
           (sample_date 8)).
  - vm_compute. repeat split; discriminate.
  - vm_compute. repeat split; discriminate.
  - reflexivity.
Defined.

(** ** What the pattern accepts *)





Section Pattern.

Variable self : Recorder.




End Pattern.




(** * Further properties of the cache control *)

Section RetentionMore.

Variable env : Env.
Variable self : Recorder.





End RetentionMore.





(** * Further properties of main *)

Lemma split_length (sep : ascii) (s : string) :
  List.length (split sep s) = S (count_char sep s).
Proof.
  induction s as [| c s IH]; cbn; [reflexivity|].
  destruct (Ascii.eqb c sep); cbn.
  - now rewrite IH.
  - destruct (split sep s) as [| p ps]; cbn in *; [discriminate | exact IH].
Qed.

Lemma split_no_separator (sep : ascii) (s : string) :
  count_char sep s = 0%nat -> split sep s = [s].
Proof.
  induction s as [| c s IH]; cbn; [reflexivity|].
  destruct (Ascii.eqb c sep); cbn; [discriminate|].
  intros H. now rewrite IH.
Qed.

Lemma split_at_separator (sep : ascii) (a b : string) :
  count_char sep a = 0%nat ->
  split sep (a ++ String sep b) = a :: split sep b.
Proof.
  induction a as [| c a IH]; cbn.
  - intros _. now rewrite Ascii.eqb_refl.
  - destruct (Ascii.eqb c sep); cbn; [discriminate|].
    intros H. now rewrite IH.
Qed.

(** X17: a channel token is accepted exactly when it holds one [=]: a
    token without it and a token with two or more (a URI with a query
    string, say) are both refused. *)
Theorem parse_channel_wants_one_separator (channel : string) :
  (exists p, parse_channel channel = inr p) <->
  count_char "=" channel = 1%nat.
Proof.
  unfold parse_channel.
  pose proof (split_length "=" channel) as Hlen.
  destruct (split "=" channel) as [| a [| b [| c l]]]; cbn in Hlen.
  - discriminate.
  - split; [intros [p Hp]; discriminate | intros H; lia].
  - split; [intros _; lia | eauto].
  - split; [intros [p Hp]; discriminate | intros H; lia].
Qed.

(** X18: a token [name=uri] whose two parts hold no [=] gives back the
    two parts, each stripped of the white space around it. *)
Theorem parse_channel_gives_both_parts (name uri : string) :
  count_char "=" name = 0%nat ->
  count_char "=" uri = 0%nat ->
  parse_channel (name ++ String "=" uri) = inr (strip name, strip uri).
Proof.
  intros Hn Hu. unfold parse_channel.
  now rewrite (split_at_separator "=" name uri Hn), (split_no_separator "=" uri Hu).
Qed.

Lemma first_char_rstrip (s : string) (c : ascii) :
  first_char s = Some c -> is_space c = false ->
  first_char (rstrip s) = Some c.
Proof.
  destruct s as [| d s]; cbn; [discriminate|]. intros [= ->] Hc.
  destruct (rstrip s); [now rewrite Hc | reflexivity].
Qed.

Lemma first_char_lstrip (s : string) (c : ascii) :
  first_char (lstrip s) = Some c -> is_space c = false.
Proof.
  induction s as [| d s IH]; cbn; [discriminate|].
  destruct (is_space d) eqn:Hd; [exact IH|]. cbn. now intros [= <-].
Qed.

Lemma first_char_rstrip_inv (s : string) (c : ascii) :
  first_char (rstrip s) = Some c -> first_char s = Some c.
Proof.
  destruct s as [| d s]; cbn; [discriminate|].
  destruct (rstrip s); [destruct (is_space d); [discriminate|] |]; auto.
Qed.

Lemma last_char_rstrip (s : string) (c : ascii) :
  last_char (rstrip s) = Some c -> is_space c = false.
Proof.
  induction s as [| d s IH]; cbn; [discriminate|].
  destruct (rstrip s) as [| e r] eqn:Hr.
  - destruct (is_space d) eqn:Hd; cbn; [discriminate|]. now intros [= <-].
  - cbn. exact IH.
Qed.

(** X19: the name and the URI that [main] hands to a recorder neither
    begin nor end with a white space character. *)
Theorem strip_leaves_no_space_around (s : string) (c : ascii) :
  first_char (strip s) = Some c \/ last_char (strip s) = Some c ->
  is_space c = false.
Proof.
  unfold strip. intros [H | H].
  - apply (first_char_lstrip s). now apply first_char_rstrip_inv.
  - now apply (last_char_rstrip (lstrip s)).
Qed.

Section Main.

Variables (outdir : string) (hours : Q) (cache : Z) (fps : Q) (verbose : bool).




Lemma main_prelude (w : World) :
  exists w1,
    (if verbose then print (LRecordingFor (int_of_Q (3600 * hours)))
     else ret tt) w = (Ret tt, w1).
Proof. destruct verbose; unfold print, tell, ret; eauto. Qed.

(** X20: without a channel [main] prints its message and exits with
    status [-1]; nothing is started. *)
Theorem main_without_channel (w : World) :
  let r := main outdir hours cache fps verbose [] w in
  fst r = Raise (SystemExit (-1)) /\
  exists es, events (snd r) = es ++ [EStdout LNoChannel].
Proof.
  intros r. subst r. destruct (main_prelude w) as [w1 Hw1].
  assert (main outdir hours cache fps verbose [] w =
          (Raise (SystemExit (-1)), emit (EStdout LNoChannel) w1)) as ->.
  { unfold main. unfold bind at 1. rewrite Hw1. reflexivity. }
  cbn. eauto.
Qed.



End Main.

(** X17 on a well-formed token. *)
Lemma parse_channel_wants_one_separator_witness :
  exists p, parse_channel "front=http://cam/img.jpg" = inr p.
Proof.
  apply (proj2 (parse_channel_wants_one_separator "front=http://cam/img.jpg")).
  reflexivity.
Defined.

(** X18 on a token written with spaces around its parts. *)
Lemma parse_channel_gives_both_parts_witness :
  parse_channel (" front " ++ String "=" " http://cam/img.jpg") =
  inr ("front", "http://cam/img.jpg").
Proof.
  apply (parse_channel_gives_both_parts " front " " http://cam/img.jpg").
  - reflexivity.
  - reflexivity.
Defined.

(** X19 on a name written between spaces. *)
Lemma strip_leaves_no_space_around_witness : is_space "f" = false.
Proof.
  apply (strip_leaves_no_space_around "  front " "f").
  left. reflexivity.
Defined.



(** * Further properties of Recorder.run *)

(** ** What the camera leaves alone *)

Lemma camera_only_refl (w : World) : camera_only w w.
Proof. repeat split. apply extends_refl. Qed.

Lemma camera_only_trans (w1 w2 w3 : World) :
  camera_only w1 w2 -> camera_only w2 w3 -> camera_only w1 w3.
Proof.
  intros (Hl1 & Hw1 & Ho1 & He1) (Hl2 & Hw2 & Ho2 & He2).
  repeat split; try congruence. eapply extends_trans; eassumption.
Qed.

Lemma camera_ret {A} (a : A) : steps camera_only (ret a).
Proof. apply steps_ret, camera_only_refl. Qed.

Lemma camera_raise {A} (e : exn) : steps camera_only (@raise A e).
Proof. apply steps_raise, camera_only_refl. Qed.

Lemma camera_starved {A} : steps camera_only (fun w => (@Starved A, w)).
Proof. apply steps_starved, camera_only_refl. Qed.

Lemma camera_bind {A B} (c : M A) (k : A -> M B) :
  steps camera_only c -> (forall a, steps camera_only (k a)) ->
  steps camera_only (bind c k).
Proof. apply steps_bind, camera_only_trans. Qed.

Lemma camera_try_except {A} (c : M A) (h : exn -> M A) :
  steps camera_only c -> (forall e, steps camera_only (h e)) ->
  steps camera_only (try_except c h).
Proof. apply steps_try_except, camera_only_trans. Qed.

Lemma camera_tell (e : Event) :
  camera_event e = true -> steps camera_only (tell e).
Proof.
  intros He w. repeat split. exists [e]. cbn. now rewrite He.
Qed.

Lemma camera_silent {A} (c : M A) :
  (forall w, listing (snd (c w)) = listing w /\
             n_write (snd (c w)) = n_write w /\
             n_open (snd (c w)) = n_open w /\
             events (snd (c w)) = events w) ->
  steps camera_only c.
Proof.
  intros H w. destruct (H w) as (Hl & Hw & Ho & He).
  repeat split; auto. now apply extends_same_events.
Qed.

Ltac camera_step :=
  first
    [ assumption
    | match goal with H : _ |- steps _ _ => apply H end
    | apply camera_ret
    | apply camera_raise
    | apply camera_starved
    | apply camera_tell; reflexivity
    | apply camera_silent; intros ?; cbn; tauto
    | apply camera_bind; [| intros ?]
    | apply camera_try_except; [| intros ?]
    | match goal with
      | |- steps _ (if ?b then _ else _) => destruct b
      | |- steps _ (match ?x with _ => _ end) => destruct x
      end ].

Ltac camera_steps := repeat camera_step.

Section Camera.

Variable env : Env.

Lemma camera_quit_is_set : steps camera_only (quit_is_set env).
Proof. camera_steps. Qed.

Lemma camera_time_time : steps camera_only (time_time env).
Proof. camera_steps. Qed.

Lemma camera_datetime_now : steps camera_only (datetime_now env).
Proof. camera_steps. Qed.

Lemma camera_requests_get (u : string) (t : Q) :
  steps camera_only (requests_get env u t).
Proof.
  intros w. unfold requests_get.
  destruct (get_at env (n_get w)); repeat split; exists [EGet u t]; auto.
Qed.

Lemma camera_time_sleep (secs : Q) : steps camera_only (time_sleep secs).
Proof. unfold time_sleep. camera_steps. Qed.

Lemma camera_process_jpg (self : IPCamera) (data : string) :
  steps camera_only (process_jpg env self data).
Proof.
  pose proof camera_datetime_now. unfold process_jpg. camera_steps.
Qed.

Lemma camera_next_frame (self : IPCamera) (fuel : nat) :
  steps camera_only (next_frame env self fuel).
Proof.
  pose proof camera_quit_is_set. pose proof camera_requests_get.
  pose proof camera_process_jpg.
  induction fuel as [| fuel IH]; cbn [next_frame]; camera_steps.
  intros w. destruct (previous w);
    refine ((_ : steps camera_only _) w); unfold print_stderr; camera_steps.
Qed.

Lemma camera_iter_next (self : IPCamera) (fuel : nat) (g : Gen) :
  steps camera_only (iter_next env self fuel g).
Proof.
  pose proof camera_quit_is_set. pose proof camera_time_time.
  pose proof camera_time_sleep. pose proof (camera_next_frame self fuel).
  unfold iter_next, iter_loop, print_stderr. camera_steps.
Qed.

End Camera.

(** ** The worker and the directory *)




Section WorkerDirectory.

Variable env : Env.
Variable self : Recorder.











(** X24: a recorder whose flag is set before it starts ends at once with
    the error on the unbound local of [next_frame]: nothing is
    requested, printed, listed or opened. *)
Theorem run_with_quit_set_fails_at_once (fuel : nat) (w : World) :
  quit_at env (n_is_set w) = true ->
  run env self (S fuel) w = (Raise (UnboundLocalError "image"), tested w).
Proof.
  intros Hq. unfold run, bind.
  now rewrite (next_frame_quit_step env (camera self) fuel w Hq).
Qed.

End WorkerDirectory.


(** X24 with the flag set from the start. *)
Lemma run_with_quit_set_fails_at_once_witness :
  run (sample_env 0 (fun _ => false)) (sample_recorder 3) 30 empty_world =
  (Raise (UnboundLocalError "image"), tested empty_world).
Proof.
  apply (run_with_quit_set_fails_at_once (sample_env 0 (fun _ => false))
           (sample_recorder 3) 29 empty_world).
  reflexivity.
Defined.

(** ** The worker and its encoders *)

Lemma path_eqb_refl (p : Path) : path_eqb p p = true.
Proof. unfold path_eqb. now rewrite !String.eqb_refl. Qed.

Lemma open_at_exit_app (es1 : list Event) :
  forall a es2,
  open_at_exit a (es1 ++ es2) = open_at_exit (open_at_exit a es1) es2.
Proof.
  induction es1 as [| e es1 IH]; intros a es2; [reflexivity|].
  destruct e; cbn; apply IH.
Qed.

Lemma writes_follow_open_app (es1 : list Event) :
  forall a es2,
  writes_follow_open a (es1 ++ es2) =
  writes_follow_open a es1 && writes_follow_open (open_at_exit a es1) es2.
Proof.
  induction es1 as [| e es1 IH]; intros a es2; [reflexivity|].
  destruct e; cbn; try apply IH.
  destruct a as [q |]; [| reflexivity].
  rewrite IH. now rewrite andb_assoc.
Qed.

Lemma no_encoder_trace (es : list Event) :
  forallb no_encoder_event es = true ->
  forall a, writes_follow_open a es = true /\ open_at_exit a es = a.
Proof.
  induction es as [| e es IH]; cbn; intros Hok a; [auto|].
  apply andb_prop in Hok as [He Hok].
  destruct e; cbn in He; try discriminate; cbn; auto.
Qed.

Lemma tracked_trans (a b c : option Path) (w1 w2 w3 : World) :
  tracked a b w1 w2 -> tracked b c w2 w3 -> tracked a c w1 w3.
Proof.
  intros (es1 & H1 & Hf1 & Ho1) (es2 & H2 & Hf2 & Ho2).
  exists (es1 ++ es2). rewrite H2, H1, app_assoc.
  rewrite writes_follow_open_app, open_at_exit_app, Hf1, Ho1, Hf2, Ho2. auto.
Qed.

Lemma tracked_no_encoder (a : option Path) (w w' : World) :
  extends no_encoder_event w w' -> tracked a a w w'.
Proof.
  intros (es & H & Hok). exists es.
  destruct (no_encoder_trace es Hok a). auto.
Qed.

Lemma camera_event_no_encoder (e : Event) :
  camera_event e = true -> no_encoder_event e = true.
Proof. destruct e; cbn; auto. Qed.

Lemma tracked_camera (a : option Path) (w w' : World) :
  camera_only w w' -> tracked a a w w'.
Proof.
  intros (_ & _ & _ & He). apply tracked_no_encoder.
  revert He. apply extends_weaken, camera_event_no_encoder.
Qed.

Section WorkerEncoders.

Variable env : Env.
Variable self : Recorder.

(** The name generator only prints and removes. *)
Lemma filepath_generator_extends (ok : Event -> bool) (w : World) :
  (forall l, ok (EStdout l) = true) ->
  (forall p, ok (ERemoveCall p) = true) ->
  extends ok w (snd (filepath_generator env self w)).
Proof.
  intros Hout Hrm. destruct (quit_at env (n_is_set w)) eqn:Hq.
  - rewrite (filepath_generator_quit env self w Hq).
    now apply extends_same_events.
  - rewrite (filepath_generator_spec env self w Hq).
    eexists. split; [reflexivity|]. cbn [forallb]. rewrite Hout. cbn [andb].
    induction (surplus self (tested w)) as [| n l IH]; [reflexivity|].
    cbn [flat_map]. rewrite forallb_app, IH. unfold removal_events.
    destruct (remove_refused env n); cbn; now rewrite Hrm, Hout.
Qed.

Lemma filepath_generator_no_encoder (w : World) :
  extends no_encoder_event w (snd (filepath_generator env self w)).
Proof. apply filepath_generator_extends; reflexivity. Qed.

Lemma tracked_record_frames (video : Path) (fuel : nat) :
  forall g stime w,
  tracked (Some video) (Some video) w
          (snd (record_frames env self video fuel g stime w)).
Proof.
  induction fuel as [| fuel IH]; intros g stime w; cbn [record_frames].
  - apply tracked_camera, camera_only_refl.
  - unfold bind at 1.
    pose proof (camera_iter_next env (camera self) fuel g w) as Hc.
    destruct (iter_next env (camera self) fuel g w) as [[[[frame |] g'] | e |] w1];
      cbn [snd] in *; try (apply tracked_camera; exact Hc).
    apply (tracked_trans _ (Some video) _ _ w1); [apply tracked_camera, Hc|].
    unfold bind at 1.
    assert (tracked (Some video) (Some video) w1
              (snd (video_write env video frame w1))) as Hw.
    { exists [EWrite video frame]. unfold video_write, bind, tell. cbn.
      rewrite path_eqb_refl.
      destruct (write_at env (n_write w1)); auto. }
    destruct (video_write env video frame w1) as [[[] | e |] w2];
      cbn [snd] in *; try exact Hw.
    apply (tracked_trans _ (Some video) _ _ w2); [exact Hw|].
    unfold bind at 1.
    set (c := if rec_verbose self
              then etime <- time_time env ;;
                   print (LFrameTime (rec_name self) (etime - stime)) ;;;
                   time_time env
              else ret stime).
    assert (steps camera_only c) as Hv.
    { subst c. pose proof (camera_time_time env). unfold print. camera_steps. }
    specialize (Hv w2).
    destruct (c w2) as [[stime' | e |] w3];
      cbn [snd] in *; try (apply tracked_camera; exact Hv).
    apply (tracked_trans _ (Some video) _ _ w3); [apply tracked_camera, Hv|].
    apply IH.
Qed.

Lemma tracked_record_files (size : Z * Z) (fuel : nat) :
  forall a w,
  exists a',
    tracked a a' w (snd (record_files env self size fuel w)).
Proof.
  induction fuel as [| fuel IH]; intros a w; cbn [record_files].
  - exists a. apply tracked_camera, camera_only_refl.
  - unfold bind at 1.
    pose proof (filepath_generator_no_encoder w) as Hg.
    apply (tracked_no_encoder a) in Hg.
    destruct (filepath_generator env self w) as [[[filepath |] | e |] w1];
      cbn [snd] in *; try solve [exists a; exact Hg].
    assert (tracked a (Some filepath)
              w1 (snd (VideoWriter env filepath (rec_fps self) size
                         (emit (EStdout (LRecordingTo filepath)) w1)))) as Ho.
    { exists [EStdout (LRecordingTo filepath);
              EOpen filepath (rec_fps self) size].
      unfold VideoWriter, bind, tell. cbn.
      rewrite <- app_assoc. auto. }
    unfold bind at 1, print, tell. unfold bind at 1.
    assert (fst (VideoWriter env filepath (rec_fps self) size
                   (emit (EStdout (LRecordingTo filepath)) w1)) = Ret filepath)
      as Hret by reflexivity.
    destruct (VideoWriter env filepath (rec_fps self) size
                (emit (EStdout (LRecordingTo filepath)) w1)) as [r w2].
    cbn [fst snd] in *. subst r.
    unfold bind at 1, time_time. unfold bind at 1.
    set (w3 := mkWorld _ _ _ _ _ _ _ _ _).
    assert (tracked (Some filepath) (Some filepath) w2 w3) as Ht
      by (apply tracked_camera; repeat split; now apply extends_same_events).
    pose proof (tracked_record_frames filepath fuel GenNew
                  (time_at env (n_time w2)) w3) as Hf.
    pose proof (tracked_trans _ _ _ _ _ _ Hg
                  (tracked_trans _ _ _ _ _ _ Ho
                     (tracked_trans _ _ _ _ _ _ Ht Hf))) as Hall.
    destruct (record_frames env self filepath fuel GenNew _ w3)
      as [[[] | e |] w4]; cbn [snd] in *; try solve [eexists; exact Hall].
    destruct (IH (Some filepath) w4) as [a' Hrest].
    exists a'. eapply tracked_trans; eassumption.
Qed.

(** X25: in every run each frame is written to the file opened last:
    no write goes to an earlier segment or happens before a file is
    open. *)
Theorem run_writes_to_the_open_file (fuel : nat) (w : World) :
  exists es,
    events (snd (run env self fuel w)) = events w ++ es /\
    writes_follow_open None es = true.
Proof.
  unfold run, bind.
  pose proof (camera_next_frame env (camera self) fuel w) as Hc.
  apply (tracked_camera None) in Hc.
  destruct (next_frame env (camera self) fuel w) as [[image | e |] w1];
    cbn [snd] in *;
    try solve [destruct Hc as (es & H & Hf & _); exists es; auto].
  destruct (tracked_record_files (width image, height image) fuel None w1)
    as [a' Hr].
  destruct (tracked_trans _ _ _ _ _ _ Hc Hr) as (es & H & Hf & _).
  exists es. auto.
Qed.

End WorkerEncoders.

Section WorkerOpens.

Variable env : Env.
Variable self : Recorder.
Variable size : Z * Z.

Let ok := opens_with (rec_fps self) size.

Lemma opens_bind {A B} (c : M A) (k : A -> M B) :
  steps (extends ok) c -> (forall a, steps (extends ok) (k a)) ->
  steps (extends ok) (bind c k).
Proof. apply steps_bind, extends_trans. Qed.

Lemma opens_of_camera {A} (c : M A) :
  steps camera_only c -> steps (extends ok) c.
Proof.
  intros H w. destruct (H w) as (_ & _ & _ & He). revert He.
  apply extends_weaken. intros e He. destruct e; cbn in *; auto; discriminate.
Qed.

Lemma opens_done {A} (r : result A) : steps (extends ok) (fun w => (r, w)).
Proof. intros w. apply extends_refl. Qed.

Lemma opens_VideoWriter (filepath : Path) :
  steps (extends ok) (VideoWriter env filepath (rec_fps self) size).
Proof.
  intros w. exists [EOpen filepath (rec_fps self) size]. split; [reflexivity|].
  subst ok. destruct size as [wd h]. cbn.
  now rewrite Qeq_bool_refl, !Z.eqb_refl.
Qed.

Lemma opens_video_write (video : Path) (frame : Image) :
  steps (extends ok) (video_write env video frame).
Proof.
  intros w. exists [EWrite video frame]. unfold video_write, bind, tell. cbn.
  destruct (write_at env (n_write w)); auto.
Qed.

Lemma opens_record_frames (video : Path) (fuel : nat) :
  forall g stime,
  steps (extends ok) (record_frames env self video fuel g stime).
Proof.
  induction fuel as [| fuel IH]; intros g stime; cbn [record_frames].
  - apply opens_done.
  - apply opens_bind; [apply opens_of_camera, camera_iter_next|].
    intros [[frame |] g']; [| apply (opens_done (Ret tt))].
    apply opens_bind; [apply opens_video_write|]. intros _.
    apply opens_bind; [| intros stime'; apply IH].
    apply opens_of_camera. pose proof (camera_time_time env).
    unfold print. camera_steps.
Qed.

Lemma opens_record_files (fuel : nat) :
  steps (extends ok) (record_files env self size fuel).
Proof.
  induction fuel as [| fuel IH]; cbn [record_files].
  - apply opens_done.
  - apply opens_bind.
    { intros w. apply filepath_generator_extends; reflexivity. }
    intros [filepath |]; [| apply (opens_done (Ret tt))].
    apply opens_bind; [apply opens_of_camera, camera_tell; reflexivity|].
    intros _.
    apply opens_bind; [apply opens_VideoWriter|]. intros video.
    apply opens_bind; [apply opens_of_camera, camera_time_time|].
    intros stime.
    apply opens_bind; [apply opens_record_frames|]. intros _. exact IH.
Qed.

End WorkerOpens.

Section WorkerSize.

Variable env : Env.
Variable self : Recorder.

(** X26: every file of a run is opened with the rate of the recorder and
    with the width and height of the one frame that [run] fetched before
    its loop, whatever the size of the frames that follow. *)
Theorem run_opens_with_first_frame_size (fuel : nat) (w w1 : World)
    (image : Image) :
  next_frame env (camera self) fuel w = (Ret image, w1) ->
  exists es,
    events (snd (run env self fuel w)) = events w1 ++ es /\
    forallb (opens_with (rec_fps self) (width image, height image)) es = true.
Proof.
  intros Hnf. unfold run, bind. rewrite Hnf.
  apply (opens_record_files env self (width image, height image) fuel w1).
Qed.

End WorkerSize.

(** X25 on the run of five files. *)
Lemma run_writes_to_the_open_file_witness :
  let r := run (sample_env 16 (fun _ => false)) (sample_recorder 3) 30
             empty_world in
  exists es,
    events (snd r) = events empty_world ++ es /\
    writes_follow_open None es = true.
Proof.
  apply (run_writes_to_the_open_file (sample_env 16 (fun _ => false))
           (sample_recorder 3) 30 empty_world).
Defined.

(** X26 on the run of five files. *)
Lemma run_opens_with_first_frame_size_witness :
  let env := sample_env 16 (fun _ => false) in
  let w1 := snd (next_frame env sample_camera 30 empty_world) in
  exists es,
    events (snd (run env (sample_recorder 3) 30 empty_world)) =
      events w1 ++ es /\
    forallb (opens_with 1 (640, 480)%Z) es = true.
Proof.
  apply (run_opens_with_first_frame_size (sample_env 16 (fun _ => false))
           (sample_recorder 3) 30 empty_world
           (snd (next_frame (sample_env 16 (fun _ => false)) sample_camera 30
                   empty_world))
           sample_image).
  reflexivity.
Defined.

(** ** The duration that main hands to the recorders *)


Section MainDuration.

Variables (outdir : string) (cache : Z) (fps : Q) (verbose : bool).




End MainDuration.

